(** * marvel-by-year: the cache-through fetcher and the year page pipeline

    A shallow embedding of [src/lib/api.ts] (class [MarvelApi] and
    [getComicsSearchParams]) and of the script of the year page
    ([filterComics], [sortComics], [orderedComics]).

    JavaScript numbers are modelled as [Z]: the development covers the
    integral years, page indices, totals and clock readings the program
    handles, for which [Number.prototype.toString] is the decimal
    numeral.  Promises are modelled by a state-and-exception monad over
    an explicit [World]; the calls to [console.log] and
    [performance.now] only report timings and are left out. *)

From stdpp Require Import base option list gmap strings pretty sorting.
From Stdlib Require Import ZArith Lia Ascii.

Open Scope Z_scope.

(** ** JavaScript values used by both parts *)

Module JS.

(** [x.toString()] and the template literal of a number. *)
Definition toString (n : Z) : string := pretty n.

(** A string converted from a value that may be [undefined], as string
    concatenation and [URLSearchParams] do it. *)
Definition ofEnv (v : option string) : string :=
  match v with
  | Some s => s
  | None => "undefined"
  end.

(** Truthiness of a [number | undefined]. *)
Definition truthyNumber (v : option Z) : bool :=
  match v with
  | Some n => negb (n =? 0)
  | None => false
  end.

(** Truthiness of a string. *)
Definition truthyString (s : string) : bool :=
  match s with
  | EmptyString => false
  | String _ _ => true
  end.

(** An object literal with string values: its own properties in
    insertion order.  Assigning an existing key keeps its position. *)
Definition object := list (string * string).

Fixpoint setProp (k v : string) (o : object) : object :=
  match o with
  | [] => [(k, v)]
  | (k', v') :: o' =>
      if decide (k' = k) then (k, v) :: o' else (k', v') :: setProp k v o'
  end.

Fixpoint getProp (k : string) (o : object) : option string :=
  match o with
  | [] => None
  | (k', v') :: o' => if decide (k' = k) then Some v' else getProp k o'
  end.

(** [{ ...o, k1: v1, ... }] *)
Definition spread (o : object) (more : list (string * string)) : object :=
  fold_left (fun acc kv => setProp kv.1 kv.2 acc) more o.

End JS.

(** ** The cache-through fetcher, [src/lib/api.ts] *)

Module Api.

(** *** Upstream data *)

Record MarvelComic := { raw_id : Z; raw_title : string }.

Record ComicDataContainer := {
  total : Z;
  results : list MarvelComic
}.

(** The JSON envelope: a numeric [code] and, on success, [data]. *)
Record ComicDataWrapper := {
  code : Z;
  data : option ComicDataContainer
}.

Record RandomComic := { id : string; image : string }.

(** *** The store *)

(** Modelled from the spec: the two writes of the store's capability
    contract, [set(key, value)] and [addPage(year, pageIndex, page,
    knownIdsWithImages)]. *)
Inductive StoreWrite :=
| WriteSet (key : string) (value : Z)
| WriteAddComics (year page : Z) (w : ComicDataWrapper) (ids : gset string).

(** Modelled from the spec: [RedisClient] of [$lib/redis], which is not
    among the sources verified here.  The spec's capability contract is
    [get(key, parse)], [set(key, value)], [addPage(year, pageIndex,
    page, knownIdsWithImages)], [sampleByYearRange(startYear, endYear,
    seed)] and [sampleAny()].  The store keeps every write it receives
    in [written], oldest first, so that "nothing was written" is a
    statement about the state. *)
Record RedisClient := {
  kv : gmap string Z;
  pages : gmap (Z * Z) ComicDataWrapper;
  written : list StoreWrite;
  sampleByYearRange : Z -> Z -> Z -> list RandomComic;
  sampleAny : list RandomComic
}.

(** *** The world an operation runs in *)

Record Request := {
  endpoint : string;
  search : JS.object
}.

(** The body of a response: [None] when it is not JSON of the expected
    shape, in which case [result.json()] rejects. *)
Record Response := { body : option ComicDataWrapper }.

Inductive Error := NetworkError | ParseError | TypeError.

Record World := {
  redis : RedisClient;
  (** [Date.now()] at the n-th reading *)
  clock : nat -> Z;
  ticks : nat;
  (** the answer of the upstream service to the n-th request; [None]
      when [fetch] rejects *)
  upstream : nat -> Request -> option Response;
  sent : list Request
}.

Inductive Outcome (A : Type) :=
| Returned (a : A)
| Thrown (e : Error).
Arguments Returned {A} a.
Arguments Thrown {A} e.

(** An [async] function: it transforms the world and either returns or
    rejects; the effects made before a rejection stay. *)
Definition Async (A : Type) : Type := World -> Outcome A * World.

Definition ret {A} (a : A) : Async A := fun w => (Returned a, w).

Definition throw {A} (e : Error) : Async A := fun w => (Thrown e, w).

(** [await m] followed by the rest of the function body *)
Definition bind {A B} (k : A -> Async B) (m : Async A) : Async B :=
  fun w =>
    match m w with
    | (Returned a, w') => k a w'
    | (Thrown e, w') => (Thrown e, w')
    end.

#[export] Instance Async_ret : MRet Async := @ret.
#[export] Instance Async_bind : MBind Async := @bind.

Definition setRedis (r : RedisClient) (w : World) : World :=
  {| redis := r; clock := clock w; ticks := ticks w;
     upstream := upstream w; sent := sent w |}.

(** The world after one more reading of the clock. *)
Definition tick (w : World) : World :=
  {| redis := redis w; clock := clock w; ticks := S (ticks w);
     upstream := upstream w; sent := sent w |}.

(** The world after request [rq] went out. *)
Definition sending (rq : Request) (w : World) : World :=
  {| redis := redis w; clock := clock w; ticks := ticks w;
     upstream := upstream w; sent := sent w ++ [rq] |}.

(** Modelled from the spec: the store after [set(key, value)]. *)
Definition stored (key : string) (value : Z) (r : RedisClient) : RedisClient :=
  {| kv := <[key := value]> (kv r); pages := pages r;
     written := written r ++ [WriteSet key value];
     sampleByYearRange := sampleByYearRange r;
     sampleAny := sampleAny r |}.

(** Modelled from the spec: the store after [addPage(year, pageIndex,
    page, knownIdsWithImages)], which the program calls [addComics]. *)
Definition storedPage (year page : Z) (p : ComicDataWrapper)
    (ids : gset string) (r : RedisClient) : RedisClient :=
  {| kv := kv r; pages := <[(year, page) := p]> (pages r);
     written := written r ++ [WriteAddComics year page p ids];
     sampleByYearRange := sampleByYearRange r;
     sampleAny := sampleAny r |}.

(** The store with no entry under [key]. *)
Definition forgetting (key : string) (r : RedisClient) : RedisClient :=
  {| kv := delete key (kv r); pages := pages r;
     written := written r;
     sampleByYearRange := sampleByYearRange r;
     sampleAny := sampleAny r |}.

(** [Date.now()] *)
Definition dateNow : Async Z :=
  fun w => (Returned (clock w (ticks w)), tick w).

(** [fetch(url)] *)
Definition fetch (rq : Request) : Async Response :=
  fun w =>
    match upstream w (length (sent w)) rq with
    | Some r => (Returned r, sending rq w)
    | None => (Thrown NetworkError, sending rq w)
    end.

(** [result.json()] *)
Definition json (r : Response) : Async ComicDataWrapper :=
  match body r with
  | Some p => ret p
  | None => throw ParseError
  end.

(** Modelled from the spec: [this.redis.get<number>(key, parseInt)],
    "typed value or absent". *)
Definition redisGet (key : string) : Async (option Z) :=
  fun w => (Returned (kv (redis w) !! key), w).

(** Modelled from the spec: [this.redis.set(key, value)] *)
Definition redisSet (key : string) (value : Z) : Async unit :=
  fun w => (Returned tt, setRedis (stored key value (redis w)) w).

(** Modelled from the spec:
    [this.redis.addComics(year, page, parsedResult, comicIdsWithImages)] *)
Definition redisAddComics (year page : Z) (p : ComicDataWrapper)
    (ids : gset string) : Async unit :=
  fun w => (Returned tt, setRedis (storedPage year page p ids (redis w)) w).

(** Modelled from the spec:
    [this.redis.getRandomComicsForYear(startYear, endYear, seed)], the
    range sample of the store *)
Definition redisGetRandomComicsForYear (startYear endYear seed : Z)
    : Async (list RandomComic) :=
  fun w => (Returned (sampleByYearRange (redis w) startYear endYear seed), w).

(** Modelled from the spec: [this.redis.getRandomComics()], the
    unconditional sample of the store *)
Definition redisGetRandomComics : Async (list RandomComic) :=
  fun w => (Returned (sampleAny (redis w)), w).

(** Modelled from the spec: [dedupe] of [$lib/util], which is not among
    the sources verified here: "deduplicate the result by id preserving
    first occurrence (insertion order)".  [seen] holds the keys met so
    far. *)
Fixpoint dedupeFrom {A K : Type} `{EqDecision K} (key : A -> K)
    (seen : list K) (l : list A) : list A :=
  match l with
  | [] => []
  | x :: l' =>
      if decide (key x ∈ seen) then dedupeFrom key seen l'
      else x :: dedupeFrom key (key x :: seen) l'
  end.

Definition dedupe {A K : Type} `{EqDecision K} (l : list A) (key : A -> K)
    : list A :=
  dedupeFrom key [] l.

(** A response is well formed when it parses as the envelope and a
    success carries its [data], with [total] a count of records. *)
Definition wellFormed (p : ComicDataWrapper) : bool :=
  if code p =? 200
  then match data p with
       | Some d => 0 <=? total d
       | None => false
       end
  else true.

(** *** The program *)

Section MarvelApi.

(** [process.env['MARVEL_PUBLIC_KEY']] and
    [process.env['MARVEL_PRIVATE_KEY']] *)
Variable PUBLIC_KEY : option string.
Variable PRIVATE_KEY : option string.

(** [md5(s).toString()] of crypto-js: the hexadecimal digest *)
Variable md5 : string -> string.

Definition COMICS_ENDPOINT : string :=
  "https://gateway.marvel.com/v1/public/comics".

Definition MAX_LIMIT : Z := 100.

Definition getComicsSearchParams (year offset limit : Z) : JS.object :=
  [ ("formatType", "comic");
    ("noVariants", "true");
    ("dateRange",
      JS.toString year +:+ "-01-01," +:+ JS.toString year +:+ "-12-31");
    ("hasDigitalIssue", "true");
    ("limit", JS.toString limit);
    ("offset", JS.toString offset);
    ("orderBy", "modified") ].

(** [new URL(urlString)] is taken to succeed and to yield a URL with no
    query of its own, as it does for [COMICS_ENDPOINT], the only URL the
    program passes; the request is kept as the endpoint and the
    parameters that [url.search] is set to. *)
Definition callMarvelApi (urlString : string) (params : JS.object)
    : Async Response :=
  now ← dateNow;
  let ts := JS.toString now in
  let paramsWithKey :=
    JS.spread params
      [ ("apikey", JS.ofEnv PUBLIC_KEY);
        ("hash",
          md5 (ts +:+ JS.ofEnv PRIVATE_KEY +:+ JS.ofEnv PUBLIC_KEY));
        ("ts", ts) ] in
  fetch {| endpoint := urlString; search := paramsWithKey |}.

(** The request [callMarvelApi] sends to the comics endpoint with
    [params] when the clock reads [now]. *)
Definition signedRequest (now : Z) (params : JS.object) : Request :=
  let ts := JS.toString now in
  {| endpoint := COMICS_ENDPOINT;
     search :=
       JS.spread params
         [ ("apikey", JS.ofEnv PUBLIC_KEY);
           ("hash",
             md5 (ts +:+ JS.ofEnv PRIVATE_KEY +:+ JS.ofEnv PUBLIC_KEY));
           ("ts", ts) ] |}.

(** The request of [getComics] for a page, at clock reading [now]. *)
Definition pageRequest (now year page : Z) : Request :=
  signedRequest now (getComicsSearchParams year (page * MAX_LIMIT) MAX_LIMIT).

(** The request of [getTotalComics], at clock reading [now]. *)
Definition totalRequest (now year : Z) : Request :=
  signedRequest now (getComicsSearchParams year 0 1).

(** The field [ignoreCache] of the class is the first argument of
    the methods that read it. *)

Definition getComics (year page : Z) (cache : gmap Z ComicDataWrapper)
    (comicIdsWithImages : gset string) : Async ComicDataWrapper :=
  match cache !! page with
  | Some cached => ret cached
  | None =>
      result ← callMarvelApi COMICS_ENDPOINT
                  (getComicsSearchParams year (page * MAX_LIMIT) MAX_LIMIT);
      parsedResult ← json result;
      (if code parsedResult =? 200
       then redisAddComics year page parsedResult comicIdsWithImages
       else ret tt);;
      ret parsedResult
  end.

Definition totalKey (year : Z) : string :=
  "year:" +:+ JS.toString year +:+ ":total".

Definition getTotalComics (ignoreCache : bool) (year : Z) : Async Z :=
  let key := totalKey year in
  val ← redisGet key;
  if JS.truthyNumber val && negb ignoreCache
  then ret (default 0 val)
  else
    result ← callMarvelApi COMICS_ENDPOINT
                (getComicsSearchParams year 0 1);
    parsedResult ← json result;
    if code parsedResult =? 200
    then
      match data parsedResult with
      | Some d =>
          redisSet key (total d);;
          ret (total d)
      | None => throw TypeError
      end
    else ret (-1).

Definition getRandomComics (startYear endYear : option Z)
    : Async (list RandomComic) :=
  if JS.truthyNumber startYear && JS.truthyNumber endYear
  then
    seed ← dateNow;
    result ← redisGetRandomComicsForYear
                (default 0 startYear) (default 0 endYear) seed;
    ret (dedupe result id)
  else redisGetRandomComics.

End MarvelApi.

End Api.

(** ** The year page: filter, search, sort and direction *)

Module YearPage.

(** *** Records *)

(** Modelled from the spec: a publish or unlimited date, as a calendar
    day; [month] counts from 0 as the page's [monthIndex] does. *)
Record Date := { year : Z; month : Z; day : Z }.

(** Modelled from the spec: the type [Comic] of [$lib/types], which is
    not among the sources verified here: "a catalog item with a unique
    identifier (string), a title, a series name, zero or more creator
    names, zero or more event names, a publish date, an unlimited
    date". *)
Record Comic := {
  id : string;
  title : string;
  seriesName : string;
  creators : list string;
  events : list string;
  onSaleDate : Date;
  unlimitedDate : Date
}.

(** *** Imports of the page

    The functions the script imports from [$lib/comics], which is not
    among the sources verified here: the page is verified against any
    implementation of them. *)
Class ComicsLib := {
  (** [getOnSaleDate(c).month()] *)
  getOnSaleMonth : Comic -> Z;
  isCreatorSelected : Comic -> gset string -> bool;
  isEventSelected : Comic -> gset string -> bool;
  compareDates : Comic -> Comic -> Z;
  compareTitles : Comic -> Comic -> Z;
  compareUnlimitedDates : Comic -> Comic -> Z
}.

(** The ranking of the match-sorter package: the rank of a title
    against the search text, and the least rank that counts as a
    match. *)
Class Ranking := {
  getMatchRanking : string -> string -> Z;
  threshold : Z
}.

(** *** [Array.prototype.sort]

    The sort is stable; with a consistent comparator its result is the
    one of any stable sorting algorithm, here insertion from the
    right. *)
Fixpoint insertSorted {A : Type} (cmp : A -> A -> Z) (x : A) (l : list A)
    : list A :=
  match l with
  | [] => [x]
  | y :: l' => if cmp x y <=? 0 then x :: l else y :: insertSorted cmp x l'
  end.

Definition arraySort {A : Type} (cmp : A -> A -> Z) (l : list A) : list A :=
  foldr (insertSorted cmp) [] l.

(** [a] may stand before [b] in the result of a sort by [cmp]. *)
Definition before {A : Type} (cmp : A -> A -> Z) (a b : A) : Prop :=
  cmp a b <= 0.

(** A comparator whose answers agree with one another: swapping the
    arguments swaps the sign, and "not after" is transitive.  For these
    the result of a stable sort does not depend on the algorithm. *)
Definition Consistent {A : Type} (cmp : A -> A -> Z) : Prop :=
  (forall a b, Z.sgn (cmp a b) = - Z.sgn (cmp b a)) /\
  (forall a b c, cmp a b <= 0 -> cmp b c <= 0 -> cmp a c <= 0).

(** *** [matchSorter] with the single key [title] *)

Record RankedItem := {
  rank : Z;
  keyIndex : Z;
  item : Comic;
  index : nat
}.

Record MatchSorterOptions := {
  baseSort : RankedItem -> RankedItem -> Z;
  sorter : option (list RankedItem -> list RankedItem)
}.

Definition sortRankedValues (baseSort : RankedItem -> RankedItem -> Z)
    (a b : RankedItem) : Z :=
  let aFirst := -1 in
  let bFirst := 1 in
  if rank a =? rank b then
    if keyIndex a =? keyIndex b then baseSort a b
    else if keyIndex a <? keyIndex b then aFirst else bFirst
  else if rank b <? rank a then aFirst else bFirst.

Section MatchSorter.
Context `{Ranking}.

(** [items.reduce(reduceItemsToRanked, [])] from position [i] on *)
Fixpoint reduceItemsToRanked (value : string) (i : nat) (items : list Comic)
    : list RankedItem :=
  match items with
  | [] => []
  | c :: rest =>
      let r := getMatchRanking (title c) value in
      if threshold <=? r
      then {| rank := r; keyIndex := 0; item := c; index := i |}
             :: reduceItemsToRanked value (S i) rest
      else reduceItemsToRanked value (S i) rest
  end.

Definition matchSorter (items : list Comic) (value : string)
    (options : MatchSorterOptions) : list Comic :=
  let matchedItems := reduceItemsToRanked value 0%nat items in
  let sort :=
    match sorter options with
    | Some s => s
    | None => arraySort (sortRankedValues (baseSort options))
    end in
  item <$> sort matchedItems.

End MatchSorter.

(** *** The script of the page *)

(** The values of [enum SortOption] *)
Definition BestMatch : string := "best match".
Definition Title : string := "title".
Definition PublishDate : string := "publish date".
Definition UnlimitedDate : string := "unlimited date".

Section Page.
Context `{ComicsLib} `{Ranking}.

(** [$creators], [$events] and [$series]: every value available for
    the category in the comics of the year *)
Variables creatorsStore eventsStore seriesStore : gset string.

Definition filterComics (comics : list Comic)
    (selectedSeries selectedCreators selectedEvents : gset string)
    (monthIndex : Z) : list Comic :=
  let noCreatorsSelected :=
    bool_decide (size selectedCreators = size creatorsStore) in
  let noEventsSelected :=
    bool_decide (size selectedEvents = size eventsStore) in
  let noSeriesSelected :=
    bool_decide (size selectedSeries = size seriesStore) in
  List.filter
    (fun c =>
       ((monthIndex <? 0) || (getOnSaleMonth c =? monthIndex)) &&
       (noSeriesSelected || bool_decide (seriesName c ∈ selectedSeries)) &&
       (noCreatorsSelected || isCreatorSelected c selectedCreators) &&
       (noEventsSelected || isEventSelected c selectedEvents))
    comics.

Definition sortFunction (sortBy : string)
    : option (list RankedItem -> list RankedItem) :=
  if decide (sortBy = PublishDate) then
    Some (arraySort (fun a b => compareDates (item a) (item b)))
  else if decide (sortBy = Title) then
    Some (arraySort (fun a b => compareTitles (item a) (item b)))
  else if decide (sortBy = UnlimitedDate) then
    Some (arraySort (fun a b => compareUnlimitedDates (item a) (item b)))
  else None.

Definition sortComics (comics : list Comic) (sortBy searchText : string)
    : list Comic :=
  matchSorter comics searchText
    {| baseSort :=
         if JS.truthyString searchText
         then (fun a b => compareTitles (item a) (item b))
         else (fun a b => compareDates (item a) (item b));
       sorter := sortFunction sortBy |}.

(** [sortDescending ? sortedComics : [...sortedComics].reverse()] *)
Definition orderedComics (sortDescending : bool) (sortedComics : list Comic)
    : list Comic :=
  if sortDescending then sortedComics else reverse sortedComics.

End Page.

End YearPage.

(** ** Implementations of the imports, for running the page *)

Module Model.
Import YearPage.

Definition signOf (c : comparison) : Z :=
  match c with
  | Lt => -1
  | Eq => 0
  | Gt => 1
  end.

Definition compareDate (a b : Date) : comparison :=
  match year a ?= year b with
  | Eq =>
      match month a ?= month b with
      | Eq => day a ?= day b
      | c => c
      end
  | c => c
  end.

(** Modelled from the spec: the functions of [$lib/comics].  The month filter reads "the
    record's publish month"; a record matches a creator (event)
    selection "if it has at least one creator in the selected set";
    [title] is a "case-sensitive lexicographic compare on title",
    [publishDate] a "chronological compare on publish date" and
    [unlimitedDate] a "chronological compare on unlimited-release
    date". *)
#[export] Instance comicsLib : ComicsLib := {|
  getOnSaleMonth c := month (onSaleDate c);
  isCreatorSelected c selected :=
    existsb (fun n => bool_decide (n ∈ selected)) (creators c);
  isEventSelected c selected :=
    existsb (fun n => bool_decide (n ∈ selected)) (events c);
  compareDates a b := signOf (compareDate (onSaleDate a) (onSaleDate b));
  compareTitles a b := signOf (String.compare (title a) (title b));
  compareUnlimitedDates a b :=
    signOf (compareDate (unlimitedDate a) (unlimitedDate b))
|}.

Definition lowerChar (c : ascii) : ascii :=
  let n := Ascii.N_of_ascii c in
  if ((65 <=? n) && (n <=? 90))%N then Ascii.ascii_of_N (n + 32) else c.

Fixpoint toLowerCase (s : string) : string :=
  match s with
  | EmptyString => EmptyString
  | String c s' => String (lowerChar c) (toLowerCase s')
  end.

Definition includes (s part : string) : bool :=
  bool_decide (is_Some (String.index 0 part s)).

(** The first letters of the words of [s]; [atStart] tells whether the
    next character starts a word.  Words end at a space or a hyphen. *)
Fixpoint acronymFrom (atStart : bool) (s : string) : string :=
  match s with
  | EmptyString => EmptyString
  | String c s' =>
      if bool_decide (c = " "%char) || bool_decide (c = "-"%char)
      then acronymFrom true s'
      else if atStart then String c (acronymFrom false s')
      else acronymFrom false s'
  end.

(** Modelled from the spec: the ranking of the fuzzy matcher, an
    external package: "full match > starts-with > word-boundary match
    > contains > acronym > no-match, case-insensitive; records with no
    match are excluded entirely"; with an empty search text no record
    is excluded and all share one rank. *)
Definition specRanking (testString stringToRank : string) : Z :=
  let t := toLowerCase testString in
  let v := toLowerCase stringToRank in
  if bool_decide (v = "") then 4
  else if bool_decide (t = v) then 5
  else if String.prefix v t then 4
  else if includes t (" " +:+ v) then 3
  else if includes t v then 2
  else if includes (acronymFrom true t) v then 1
  else 0.

#[export] Instance ranking : Ranking := {|
  getMatchRanking := specRanking;
  threshold := 1
|}.

(** The records of the spec's scenarios, with dates filled in. *)
Definition amazing : Comic := {|
  id := "1"; title := "Amazing Spider-Man"; seriesName := "ASM";
  creators := ["Lee"; "Ditko"]; events := [];
  onSaleDate := {| year := 1963; month := 2; day := 1 |};
  unlimitedDate := {| year := 2008; month := 10; day := 13 |} |}.

Definition astonishing : Comic := {|
  id := "2"; title := "Astonishing Spider-Man"; seriesName := "ASM";
  creators := ["Lee"]; events := ["Secret Wars"];
  onSaleDate := {| year := 1963; month := 0; day := 15 |};
  unlimitedDate := {| year := 2009; month := 4; day := 2 |} |}.

Definition avengers : Comic := {|
  id := "3"; title := "Avengers"; seriesName := "AVG";
  creators := ["Kirby"]; events := [];
  onSaleDate := {| year := 1963; month := 8; day := 10 |};
  unlimitedDate := {| year := 2007; month := 11; day := 1 |} |}.

(** A second printing: the title and the dates of [amazing] under
    another id. *)
Definition reprint : Comic := {|
  id := "4"; title := title amazing; seriesName := seriesName amazing;
  creators := creators amazing; events := events amazing;
  onSaleDate := onSaleDate amazing; unlimitedDate := unlimitedDate amazing |}.

End Model.

(** ** Worlds for running the fetcher *)

Module Fixture.
Import Api.

Definition spidey : RandomComic := {| id := "1"; image := "spidey.jpg" |}.
Definition hulk : RandomComic := {| id := "2"; image := "hulk.jpg" |}.

Definition emptyStore : RedisClient := {|
  kv := ∅;
  pages := ∅;
  written := [];
  sampleByYearRange := fun _ _ _ => [spidey; hulk; spidey];
  sampleAny := [hulk; hulk]
|}.

(** A store whose cached total of 1999 is 0. *)
Definition zeroStore : RedisClient := {|
  kv := {[ "year:1999:total" := 0 ]};
  pages := ∅;
  written := [];
  sampleByYearRange := fun _ _ _ => [spidey; hulk; spidey];
  sampleAny := [hulk; hulk]
|}.

Definition okPage : ComicDataWrapper := {|
  code := 200;
  data := Some {| total := 1234;
                  results := [ {| raw_id := 7; raw_title := "Avengers" |} ] |}
|}.

(** The envelope of a refused request: a code and no data. *)
Definition refusedPage : ComicDataWrapper := {| code := 409; data := None |}.

Definition worldOf (store : RedisClient) (answer : option Response) : World := {|
  redis := store;
  clock := fun n => nth n [1600000000000; 1600000000250] 1600000000500;
  ticks := 0;
  upstream := fun _ _ => answer;
  sent := []
|}.

Definition okWorld : World := worldOf emptyStore (Some {| body := Some okPage |}).
Definition refusedWorld : World :=
  worldOf emptyStore (Some {| body := Some refusedPage |}).
Definition zeroWorld : World := worldOf zeroStore (Some {| body := Some okPage |}).

(** A stand-in for the digest in the runs below. *)
Definition digest (s : string) : string := "md5:" +:+ s.

Definition publicKey : option string := Some "pub".
Definition privateKey : option string := Some "priv".

End Fixture.


(** ** The controls of the year page and what it shows *)

Module Script.

Definition months : list string :=
  [ "all"; "Jan"; "Feb"; "Mar"; "Apr"; "May"; "Jun";
    "Jul"; "Aug"; "Sep"; "Oct"; "Nov"; "Dec" ].

(** [Array.prototype.indexOf] for an array of strings: the position of
    the first element equal to [x], counted from [i], or -1. *)
Fixpoint indexOfFrom (l : list string) (x : string) (i : Z) : Z :=
  match l with
  | [] => -1
  | y :: l' => if decide (y = x) then i else indexOfFrom l' x (i + 1)
  end.

Definition indexOf (l : list string) (x : string) : Z := indexOfFrom l x 0.

(** [l[key]] for a string [key]: the element at the index whose decimal
    numeral is [key].  Any other key yields no month name ([None]): it
    is [undefined] or a member of the array object, and [indexOf] finds
    neither among the strings. *)
Definition elementAt (l : list string) (key : string) : option string :=
  i ← List.find (fun i => bool_decide (JS.toString (Z.of_nat i) = key))
                (seq 0 (length l));
  l !! i.

(** [months[startMonth ? startMonth : 0]], where [startMonth] is
    [$page.query.get('month')]: a string or [null]. *)
Definition initialMonth (startMonth : option string) : option string :=
  match startMonth with
  | Some s => if JS.truthyString s then elementAt months s else months !! 0%nat
  | None => months !! 0%nat
  end.

(** [$: monthIndex = months.indexOf(month) - 1] *)
Definition monthIndex (month : option string) : Z :=
  match month with
  | Some m => indexOf months m - 1
  | None => -1 - 1
  end.

(** The variables of the page that the controls are bound to. *)
Record Controls := {
  selectedSeries : gset string;
  selectedCreators : gset string;
  selectedEvents : gset string;
  searchText : string;
  month : option string;
  sortBy : string;
  sortDescending : bool
}.

Section Reactive.
Context `{YearPage.ComicsLib} `{YearPage.Ranking}.

(** [$creators], [$events] and [$series] *)
Variables creators events series : gset string.

Definition resetFilters (st : Controls) : Controls :=
  {| selectedCreators := creators;
     selectedSeries := series;
     selectedEvents := events;
     searchText := "";
     month := months !! 0%nat;
     sortBy := sortBy st;
     sortDescending := sortDescending st |}.

(** [$: filteredComics = filterComics(comics, $selectedSeries,
    $selectedCreators, $selectedEvents, monthIndex)] *)
Definition filteredComics (comics : list YearPage.Comic) (st : Controls)
    : list YearPage.Comic :=
  YearPage.filterComics creators events series comics
    (selectedSeries st) (selectedCreators st) (selectedEvents st)
    (monthIndex (month st)).

(** [$: sortedComics = sortComics(filteredComics, sortBy, searchText)] *)
Definition sortedComics (comics : list YearPage.Comic) (st : Controls)
    : list YearPage.Comic :=
  YearPage.sortComics (filteredComics comics st) (sortBy st) (searchText st).

(** [$: orderedComics = sortDescending ? sortedComics :
    [...sortedComics].reverse()], the list the grid iterates over *)
Definition shownComics (comics : list YearPage.Comic) (st : Controls)
    : list YearPage.Comic :=
  YearPage.orderedComics (sortDescending st) (sortedComics comics st).

End Reactive.

End Script.

(** ** The [load] function of the year page *)

Module Load.

(** What a promise is rejected with. *)
Inductive Reason :=
| TimedOut (message : string)
| FetchFailed
| BodyNotJson.

Inductive Settled (A : Type) :=
| Fulfilled (a : A)
| Rejected (r : Reason).
Arguments Fulfilled {A} a.
Arguments Rejected {A} r.

(** The body of the year endpoint, as the page uses it: [response.comics]
    and [response.attr]. *)
Record ComicResponse := {
  comics : list YearPage.Comic;
  attr : option string
}.

(** What [res.json()] does: it fulfils with the parsed body, it rejects,
    or it never settles. *)
Inductive BodyRead :=
| Parses (response : ComicResponse)
| NotJson
| Unfinished.

(** A response of [fetch]. *)
Record FetchResponse := {
  ok : bool;
  status : Z;
  body : BodyRead
}.

Inductive LoadError :=
| CouldNotLoad (message : string)
| Caught (r : Reason).

Inductive LoadOutput :=
| Props (response : ComicResponse) (year : option Z) (maxage : Z)
| Failure (status : Z) (error : LoadError).

(** Which of the two promises of [Promise.race] settles first. *)
Inductive Race := TimerFirst | CallFirst.

(** [promiseTimeout(ms, promise)]: [promise] is [None] when it never
    settles, and then the timer wins. *)
Definition promiseTimeout {A : Type} (race : Race) (ms : Z)
    (promise : option (Settled A)) : Settled A :=
  match promise, race with
  | Some outcome, CallFirst => outcome
  | _, _ => Rejected (TimedOut ("Timed out in " +:+ JS.toString ms +:+ "ms."))
  end.

Definition DEFAULT_TIMEOUT : Z := 9000.

Section Load.

(** [$app/env]'s [browser] *)
Variable browser : bool.
(** [parseInt]: [None] stands for [NaN] *)
Variable parseInt : string -> option Z.
(** the [fetch] handed to [load]: the outcome of the call for a URL,
    [None] when it never settles *)
Variable fetch : string -> option (Settled FetchResponse).
Variable race : Race.

(** [load({ page, fetch })] for [page.params.year = year]; the result is
    [None] when the function never returns. *)
Definition load (year : string) : option LoadOutput :=
  let url := "/year/" +:+ year +:+ ".json" in
  let apiCall := fetch url in
  let awaited :=
    if browser then apiCall
    else Some (promiseTimeout race DEFAULT_TIMEOUT apiCall) in
  match awaited with
  | None => None
  | Some (Rejected e) => Some (Failure 500 (Caught e))
  | Some (Fulfilled res) =>
      match body res with
      | Unfinished => None
      | NotJson => Some (Failure 500 (Caught BodyNotJson))
      | Parses response =>
          if ok res
          then Some (Props response (parseInt year) 86400)
          else Some (Failure (status res)
                       (CouldNotLoad ("Could not load " +:+ url)))
      end
  end.

End Load.

End Load.

(** ** Inputs for running the controls and [load] *)

Module ScriptFixture.
Import Script Load.

(** Controls with a search text, a month and a narrowed series
    selection. *)
Definition marchControls : Controls := {|
  selectedSeries := {[ "ASM" ]};
  selectedCreators := {[ "Lee"; "Ditko"; "Kirby" ]};
  selectedEvents := {[ "Secret Wars" ]};
  searchText := "spider";
  month := Some "Mar";
  sortBy := YearPage.Title;
  sortDescending := false
|}.

(** A stand-in for [parseInt] that knows one year. *)
Definition parseYear (s : string) : option Z :=
  if decide (s = "1999") then Some 1999 else None.

Definition notFound : FetchResponse := {|
  ok := false;
  status := 404;
  body := Parses {| comics := []; attr := None |}
|}.

(** A service that answers the year 1999 with [notFound] and nothing
    else. *)
Definition fetchYear (url : string) : option (Settled FetchResponse) :=
  if decide (url = "/year/1999.json") then Some (Fulfilled notFound) else None.

End ScriptFixture.

(** * Properties of the fetcher *)

Module ApiFacts.
Import Api.

(** ** [dedupe] *)

Section Dedupe.
Context {A K : Type} `{EqDecision K} (key : A -> K).

Lemma dedupeFrom_fresh (seen : list K) (l : list A) (x : A) :
  x ∈ dedupeFrom key seen l -> key x ∉ seen.
Proof.
  revert seen. induction l as [|y l IH]; intros seen; simpl.
  - intros Hx. by apply elem_of_nil in Hx.
  - destruct (decide (key y ∈ seen)) as [Hin|Hout].
    + apply IH.
    + intros [->|Hx]%elem_of_cons; [done|].
      apply IH in Hx. set_solver.
Qed.

Lemma dedupeFrom_NoDup (seen : list K) (l : list A) :
  NoDup (key <$> dedupeFrom key seen l).
Proof.
  revert seen. induction l as [|y l IH]; intros seen; simpl.
  - constructor.
  - destruct (decide (key y ∈ seen)); [apply IH|].
    constructor; [|apply IH].
    intros (z & Hz & Hin)%list_elem_of_fmap.
    apply dedupeFrom_fresh in Hin. rewrite Hz in Hin. set_solver.
Qed.

Lemma dedupeFrom_sublist (seen : list K) (l : list A) :
  sublist (dedupeFrom key seen l) l.
Proof.
  revert seen. induction l as [|y l IH]; intros seen; simpl.
  - constructor.
  - destruct (decide (key y ∈ seen)).
    + apply sublist_cons, IH.
    + apply sublist_skip, IH.
Qed.

Lemma dedupeFrom_keys (seen : list K) (l : list A) (k : K) :
  k ∈ key <$> l -> k ∈ seen ∨ k ∈ key <$> dedupeFrom key seen l.
Proof.
  revert seen. induction l as [|y l IH]; intros seen; simpl.
  - intros Hk. by apply elem_of_nil in Hk.
  - intros [->|Hk]%elem_of_cons.
    + destruct (decide (key y ∈ seen)); [by left|].
      right. by left.
    + destruct (decide (key y ∈ seen)); [by apply IH|].
      destruct (IH (key y :: seen) Hk) as [[->|Hs]%elem_of_cons|Hd].
      * right. by left.
      * by left.
      * right. by right.
Qed.

(** The head of the input is always kept: the first occurrence wins. *)
Lemma dedupe_head (x : A) (l : list A) :
  dedupe (x :: l) key = x :: dedupeFrom key [key x] l.
Proof.
  unfold dedupe. simpl. destruct (decide (key x ∈ [])) as [Hin|_]; [|done].
  by apply elem_of_nil in Hin.
Qed.

End Dedupe.

(** ** Running the methods *)

Section Runs.
Variable PUBLIC_KEY PRIVATE_KEY : option string.
Variable md5 : string -> string.

Local Abbreviation callMarvelApi := (callMarvelApi PUBLIC_KEY PRIVATE_KEY md5).
Local Abbreviation signedRequest := (signedRequest PUBLIC_KEY PRIVATE_KEY md5).
Local Abbreviation getComics := (getComics PUBLIC_KEY PRIVATE_KEY md5).
Local Abbreviation getTotalComics := (getTotalComics PUBLIC_KEY PRIVATE_KEY md5).
Local Abbreviation pageRequest := (pageRequest PUBLIC_KEY PRIVATE_KEY md5).
Local Abbreviation totalRequest := (totalRequest PUBLIC_KEY PRIVATE_KEY md5).

Lemma callMarvelApi_run (params : JS.object) (w : World) :
  callMarvelApi COMICS_ENDPOINT params w =
  let rq := signedRequest (clock w (ticks w)) params in
  match upstream w (length (sent w)) rq with
  | Some r => (Returned r, sending rq (tick w))
  | None => (Thrown NetworkError, sending rq (tick w))
  end.
Proof. reflexivity. Qed.

Lemma getComics_miss (year page : Z) (cache : gmap Z ComicDataWrapper)
    (ids : gset string) (w : World) :
  cache !! page = None ->
  getComics year page cache ids w =
  let rq := pageRequest (clock w (ticks w)) year page in
  let w1 := sending rq (tick w) in
  match upstream w (length (sent w)) rq with
  | Some {| body := Some p |} =>
      (Returned p,
       if code p =? 200
       then setRedis (storedPage year page p ids (redis w)) w1
       else w1)
  | Some {| body := None |} => (Thrown ParseError, w1)
  | None => (Thrown NetworkError, w1)
  end.
Proof.
  intros Hmiss. unfold getComics. rewrite Hmiss.
  unfold mbind, Async_bind, bind. rewrite callMarvelApi_run.
  cbv zeta. fold (pageRequest (clock w (ticks w)) year page).
  destruct (upstream w _ _) as [[[p|]]|]; try reflexivity.
  unfold json; simpl. destruct (code p =? 200); reflexivity.
Qed.

Lemma getTotalComics_miss (ignoreCache : bool) (year : Z) (w : World) :
  JS.truthyNumber (kv (redis w) !! totalKey year) && negb ignoreCache = false ->
  getTotalComics ignoreCache year w =
  let rq := totalRequest (clock w (ticks w)) year in
  let w1 := sending rq (tick w) in
  match upstream w (length (sent w)) rq with
  | Some {| body := Some p |} =>
      if code p =? 200
      then match data p with
           | Some d =>
               (Returned (total d),
                setRedis (stored (totalKey year) (total d) (redis w)) w1)
           | None => (Thrown TypeError, w1)
           end
      else (Returned (-1), w1)
  | Some {| body := None |} => (Thrown ParseError, w1)
  | None => (Thrown NetworkError, w1)
  end.
Proof.
  intros Hmiss. unfold getTotalComics.
  unfold mbind, Async_bind, bind, redisGet. rewrite Hmiss.
  rewrite callMarvelApi_run.
  cbv zeta. fold (totalRequest (clock w (ticks w)) year).
  destruct (upstream w _ _) as [[[p|]]|]; try reflexivity.
  unfold json; simpl. destruct (code p =? 200); [|reflexivity].
  destruct (data p); reflexivity.
Qed.

Lemma getTotalComics_miss_sent (ignoreCache : bool) (year : Z) (w : World) :
  JS.truthyNumber (kv (redis w) !! totalKey year) && negb ignoreCache = false ->
  sent (getTotalComics ignoreCache year w).2 =
  sent w ++ [totalRequest (clock w (ticks w)) year].
Proof.
  intros Hmiss. rewrite getTotalComics_miss by done. cbv zeta.
  destruct (upstream w _ _) as [[[p|]]|]; try reflexivity.
  destruct (code p =? 200); [|reflexivity].
  destruct (data p); reflexivity.
Qed.

Lemma getTotalComics_hit (year v : Z) (w : World) :
  kv (redis w) !! totalKey year = Some v -> v ≠ 0 ->
  getTotalComics false year w = (Returned v, w).
Proof.
  intros Hkv Hv. unfold getTotalComics.
  unfold mbind, Async_bind, bind, redisGet. rewrite Hkv. simpl.
  destruct (Z.eqb_spec v 0); [done|reflexivity].
Qed.

(** C8: every request [getComics] issues for year [year] and page [page]
    goes to the comics endpoint and carries exactly the parameters
    formatType=comic, noVariants=true, dateRange=year-01-01,year-12-31,
    hasDigitalIssue=true, limit=100, offset=page*100, orderBy=modified,
    then apikey (the public key), hash (the md5 digest of timestamp +
    private key + public key) and ts (the timestamp); a page found in
    [cache] issues no request. *)
Theorem getComics_request_parameters (year page : Z)
    (cache : gmap Z ComicDataWrapper) (ids : gset string) (w : World) :
  let ts := JS.toString (clock w (ticks w)) in
  sent (getComics year page cache ids w).2 =
  sent w ++
  match cache !! page with
  | Some _ => []
  | None =>
      [ {| endpoint := "https://gateway.marvel.com/v1/public/comics";
           search :=
             [ ("formatType", "comic");
               ("noVariants", "true");
               ("dateRange",
                 JS.toString year +:+ "-01-01," +:+ JS.toString year +:+ "-12-31");
               ("hasDigitalIssue", "true");
               ("limit", "100");
               ("offset", JS.toString (page * 100));
               ("orderBy", "modified");
               ("apikey", JS.ofEnv PUBLIC_KEY);
               ("hash",
                 md5 (ts +:+ JS.ofEnv PRIVATE_KEY +:+ JS.ofEnv PUBLIC_KEY));
               ("ts", ts) ] |} ]
  end.
Proof.
  intros ts. destruct (cache !! page) as [p|] eqn:Hc.
  - unfold getComics. rewrite Hc. simpl. by rewrite app_nil_r.
  - rewrite getComics_miss by done. cbv zeta.
    destruct (upstream w _ _) as [[[p|]]|]; try reflexivity.
    destruct (code p =? 200); reflexivity.
Qed.

(** C5: a page present in [cache] is returned at once, the world is left
    as it was (no request, no write), and a second call with the same
    [cache] returns the same page, again without touching the world. *)
Theorem getComics_cached (year page : Z) (cache : gmap Z ComicDataWrapper)
    (ids : gset string) (w : World) (p : ComicDataWrapper) :
  cache !! page = Some p ->
  getComics year page cache ids w = (Returned p, w) ∧
  sent (getComics year page cache ids w).2 = sent w ∧
  written (redis (getComics year page cache ids w).2) = written (redis w) ∧
  getComics year page cache ids (getComics year page cache ids w).2
    = (Returned p, w).
Proof.
  intros Hc.
  assert (getComics year page cache ids w = (Returned p, w)) as Hrun.
  { unfold getComics. by rewrite Hc. }
  rewrite !Hrun. simpl. by rewrite Hrun.
Qed.

(** C4: on a cache miss the parsed page is returned whatever its code,
    and it is written to the store exactly when its code is 200; when
    the fetch or the parse fails the call rejects and the store is left
    as it was. *)
Theorem getComics_persists_iff_success (year page : Z)
    (cache : gmap Z ComicDataWrapper) (ids : gset string) (w : World) :
  cache !! page = None ->
  let run := getComics year page cache ids w in
  match upstream w (length (sent w))
          (pageRequest (clock w (ticks w)) year page) with
  | Some {| body := Some p |} =>
      run.1 = Returned p ∧
      written (redis run.2) =
        written (redis w) ++
        (if code p =? 200 then [WriteAddComics year page p ids] else []) ∧
      (code p = 200 -> redis run.2 = storedPage year page p ids (redis w)) ∧
      (code p ≠ 200 -> redis run.2 = redis w) ∧
      (WriteAddComics year page p ids ∈ drop (length (written (redis w)))
                                            (written (redis run.2))
       <-> code p = 200)
  | _ => (∃ e, run.1 = Thrown e) ∧ redis run.2 = redis w
  end.
Proof.
  intros Hc run. subst run. rewrite getComics_miss by done. cbv zeta.
  destruct (upstream w _ _) as [[[p|]]|]; simpl; [|by eauto..].
  destruct (Z.eqb_spec (code p) 200) as [Hcode|Hcode]; simpl.
  - rewrite drop_app_length. repeat split; try done. by left.
  - rewrite app_nil_r, drop_all. repeat split; try done.
    intros Hin. by apply elem_of_nil in Hin.
Qed.

(** C3: when [getTotalComics] reaches the upstream service and the
    response is well formed, a code other than 200 makes it return -1
    with the store left as it was, so that the next call sends a request
    again; a code of 200 stores the total under the key of the year and
    returns it; and no value the call writes is -1. *)
Theorem getTotalComics_status (ignoreCache : bool) (year : Z) (w : World)
    (p : ComicDataWrapper) :
  JS.truthyNumber (kv (redis w) !! totalKey year) && negb ignoreCache = false ->
  upstream w (length (sent w)) (totalRequest (clock w (ticks w)) year)
    = Some {| body := Some p |} ->
  wellFormed p = true ->
  let run := getTotalComics ignoreCache year w in
  sent run.2 = sent w ++ [totalRequest (clock w (ticks w)) year] ∧
  (code p ≠ 200 ->
     run.1 = Returned (-1) ∧
     redis run.2 = redis w ∧
     sent (getTotalComics ignoreCache year run.2).2 =
       sent run.2 ++ [totalRequest (clock run.2 (ticks run.2)) year]) ∧
  (code p = 200 ->
     ∃ d, data p = Some d ∧
          run.1 = Returned (total d) ∧
          redis run.2 = stored (totalKey year) (total d) (redis w) ∧
          kv (redis run.2) !! totalKey year = Some (total d)) ∧
  (∀ k v, WriteSet k v ∈ written (redis run.2) ->
          WriteSet k v ∈ written (redis w) ∨ v ≠ -1).
Proof.
  intros Hmiss Hup Hwf run. subst run.
  split; [by apply getTotalComics_miss_sent|].
  rewrite getTotalComics_miss by done. cbv zeta. rewrite Hup.
  unfold wellFormed in Hwf.
  destruct (Z.eqb_spec (code p) 200) as [Hcode|Hcode].
  - destruct (data p) as [d|] eqn:Hd; [|done]. simpl.
    split; [done|]. split.
    + intros _. exists d. repeat split. apply lookup_insert_eq.
    + intros k v [Hin|Hin]%elem_of_app; [by left|].
      apply list_elem_of_singleton in Hin. injection Hin as -> ->.
      right. lia.
  - simpl. split; [|split; [done|by left]].
    intros _. split; [done|]. split; [done|].
    by apply getTotalComics_miss_sent.
Qed.

(** C9: a cached total of 0 is treated as no entry: whether or not the
    cache is bypassed the call sends a request, and its outcome and its
    requests are those of the same call on a store with no entry under
    the key. *)
Theorem getTotalComics_zero_not_served (ignoreCache : bool) (year : Z)
    (w : World) :
  kv (redis w) !! totalKey year = Some 0 ->
  let run := getTotalComics ignoreCache year w in
  let absent :=
    getTotalComics ignoreCache year
      (setRedis (forgetting (totalKey year) (redis w)) w) in
  sent run.2 = sent w ++ [totalRequest (clock w (ticks w)) year] ∧
  run.1 = absent.1 ∧
  sent run.2 = sent absent.2.
Proof.
  intros Hkv run absent. subst run absent.
  assert (JS.truthyNumber (kv (redis w) !! totalKey year) && negb ignoreCache
          = false) as Hmiss by by rewrite Hkv.
  split; [by apply getTotalComics_miss_sent|].
  rewrite !getTotalComics_miss; [|simpl; by rewrite lookup_delete_eq|done].
  cbv zeta. simpl.
  destruct (upstream w _ _) as [[[p|]]|]; try done.
  destruct (code p =? 200); [|done]. by destruct (data p).
Qed.

End Runs.

(** ** Random comics *)

Lemma getRandomComics_ranged (s e : Z) (w : World) :
  s ≠ 0 -> e ≠ 0 ->
  getRandomComics (Some s) (Some e) w =
  (Returned (dedupe (sampleByYearRange (redis w) s e (clock w (ticks w))) id),
   tick w).
Proof.
  intros Hs He. unfold getRandomComics. simpl.
  destruct (Z.eqb_spec s 0); [done|]. destruct (Z.eqb_spec e 0); [done|].
  reflexivity.
Qed.

Lemma getRandomComics_unranged (startYear endYear : option Z) (w : World) :
  JS.truthyNumber startYear && JS.truthyNumber endYear = false ->
  getRandomComics startYear endYear w = (Returned (sampleAny (redis w)), w).
Proof. intros Hf. unfold getRandomComics. by rewrite Hf. Qed.

(** C10: the seeded, deduplicated range sample is taken only when both
    bounds are present and not 0; with a bound that is undefined or 0 the
    result is the store's unconditional sample as the store returned it,
    and the clock is not read. *)
Theorem getRandomComics_paths (startYear endYear : option Z) (w : World) :
  getRandomComics startYear endYear w =
  match startYear, endYear with
  | Some s, Some e =>
      if (s =? 0) || (e =? 0)
      then (Returned (sampleAny (redis w)), w)
      else (Returned
              (dedupe (sampleByYearRange (redis w) s e (clock w (ticks w))) id),
            tick w)
  | _, _ => (Returned (sampleAny (redis w)), w)
  end.
Proof.
  destruct startYear as [s|], endYear as [e|];
    try (apply getRandomComics_unranged; simpl; by rewrite ?andb_false_r).
  destruct (Z.eqb_spec s 0) as [->|Hs]; simpl.
  { by apply getRandomComics_unranged. }
  destruct (Z.eqb_spec e 0) as [->|He].
  { apply getRandomComics_unranged. simpl. by rewrite andb_false_r. }
  by apply getRandomComics_ranged.
Qed.

(** C6, as amended: when both bounds are given and neither is 0, the
    seed is the reading of the clock, the store's range sample for that
    seed is deduplicated by id keeping first occurrences, and the result
    has no duplicate id, whatever the store returned. *)
Theorem getRandomComics_no_duplicates (s e : Z) (w : World) :
  s ≠ 0 -> e ≠ 0 ->
  let sample := sampleByYearRange (redis w) s e (clock w (ticks w)) in
  ∃ l, getRandomComics (Some s) (Some e) w = (Returned l, tick w) ∧
       l = dedupe sample id ∧
       NoDup (id <$> l) ∧
       sublist l sample ∧
       (∀ k, k ∈ id <$> sample -> k ∈ id <$> l) ∧
       head l = head sample.
Proof.
  intros Hs He sample. exists (dedupe sample id).
  split; [by apply getRandomComics_ranged|]. split; [done|].
  split; [apply dedupeFrom_NoDup|]. split; [apply dedupeFrom_sublist|].
  split.
  - intros k Hk. destruct (dedupeFrom_keys id [] sample k Hk) as [Hin|Hin];
      [by apply elem_of_nil in Hin|done].
  - destruct sample as [|x l]; [done|]. by rewrite dedupe_head.
Qed.

End ApiFacts.

(** * Properties of the year page *)

Module YearPageFacts.
Import YearPage.

(** ** [Array.prototype.sort] *)

Section Sort.
Context {A : Type} (cmp : A -> A -> Z).

Lemma insertSorted_Permutation (x : A) (l : list A) :
  insertSorted cmp x l ≡ₚ x :: l.
Proof.
  induction l as [|y l IH]; simpl; [done|].
  destruct (cmp x y <=? 0); [done|].
  rewrite IH. apply Permutation_swap.
Qed.

Lemma arraySort_Permutation (l : list A) : arraySort cmp l ≡ₚ l.
Proof.
  induction l as [|x l IH]; simpl; [done|].
  rewrite insertSorted_Permutation. by rewrite IH.
Qed.

Lemma Consistent_total (a b : A) :
  Consistent cmp -> before cmp a b ∨ before cmp b a.
Proof.
  intros [Hsgn _]. unfold before. specialize (Hsgn a b).
  destruct (Z.sgn_spec (cmp a b)) as [[? ?]|[[? ?]|[? ?]]];
    destruct (Z.sgn_spec (cmp b a)) as [[? ?]|[[? ?]|[? ?]]]; lia.
Qed.

Lemma insertSorted_sorted (x : A) (l : list A) :
  Consistent cmp ->
  StronglySorted (before cmp) l ->
  StronglySorted (before cmp) (insertSorted cmp x l).
Proof.
  intros Hc. induction 1 as [|y l Hl IH Hy]; simpl.
  - repeat constructor.
  - destruct (Z.leb_spec (cmp x y) 0) as [Hle|Hgt].
    + constructor; [by constructor|].
      constructor; [done|].
      eapply Forall_impl; [exact Hy|].
      intros z Hz. destruct Hc as [_ Htrans]. by eapply Htrans.
    + constructor; [done|].
      rewrite insertSorted_Permutation. constructor; [|done].
      destruct (Consistent_total x y Hc) as [Hb|Hb]; [|done].
      unfold before in Hb. lia.
Qed.

Lemma arraySort_sorted (l : list A) :
  Consistent cmp -> StronglySorted (before cmp) (arraySort cmp l).
Proof.
  intros Hc. induction l as [|x l IH]; simpl; [constructor|].
  by apply insertSorted_sorted.
Qed.

End Sort.

Lemma StronglySorted_lookup {A : Type} (R : relation A) (l : list A)
    (i j : nat) (a b : A) :
  StronglySorted R l -> (i < j)%nat ->
  l !! i = Some a -> l !! j = Some b -> R a b.
Proof.
  intros Hs. revert i j. induction Hs as [|x l Hl IH Hx]; intros i j Hij Hi Hj.
  - by rewrite lookup_nil in Hi.
  - destruct j as [|j]; [lia|]. simpl in Hj. destruct i as [|i]; simpl in Hi.
    + injection Hi as <-. rewrite Forall_forall in Hx.
      apply Hx. by eapply list_elem_of_lookup_2.
    + apply (IH i j); [lia|done..].
Qed.

(** ** [matchSorter] *)

Ltac compare_cases :=
  repeat match goal with
         | H : context [Z.eqb ?x ?y] |- _ => destruct (Z.eqb_spec x y)
         | H : context [Z.ltb ?x ?y] |- _ => destruct (Z.ltb_spec x y)
         | |- context [Z.eqb ?x ?y] => destruct (Z.eqb_spec x y)
         | |- context [Z.ltb ?x ?y] => destruct (Z.ltb_spec x y)
         end.

Lemma sortRankedValues_consistent (bs : RankedItem -> RankedItem -> Z) :
  Consistent bs -> Consistent (sortRankedValues bs).
Proof.
  intros [Hsgn Htrans]. split.
  - intros a b. unfold sortRankedValues. cbv zeta.
    compare_cases; try lia; try done; apply Hsgn.
  - intros a b c. unfold sortRankedValues. cbv zeta.
    intros Hab Hbc. compare_cases; try lia; by eapply Htrans.
Qed.

Lemma Consistent_items (c : Comic -> Comic -> Z) :
  Consistent c -> Consistent (fun a b : RankedItem => c (item a) (item b)).
Proof.
  intros [Hsgn Htrans]. split.
  - intros a b. apply Hsgn.
  - intros a b d. apply Htrans.
Qed.

Lemma truthyString_true (s : string) : s ≠ "" -> JS.truthyString s = true.
Proof. by destruct s. Qed.

Section Ranked.
Context `{Ranking}.

Lemma reduceItemsToRanked_items (value : string) (i : nat) (comics : list Comic) :
  item <$> reduceItemsToRanked value i comics =
  List.filter (fun c => threshold <=? getMatchRanking (title c) value) comics.
Proof.
  revert i. induction comics as [|c comics IH]; intros i; simpl; [done|].
  destruct (threshold <=? _); simpl; by rewrite IH.
Qed.

Lemma reduceItemsToRanked_ranks (value : string) (i : nat) (comics : list Comic) :
  Forall (fun r => rank r = getMatchRanking (title (item r)) value ∧
                   keyIndex r = 0)
         (reduceItemsToRanked value i comics).
Proof.
  revert i. induction comics as [|c comics IH]; intros i; simpl; [constructor|].
  destruct (threshold <=? _); [constructor; [done|]|]; apply IH.
Qed.

(** The order of the default sorter: best rank first, ties by [c]. *)
Lemma default_sorter_order (c : Comic -> Comic -> Z) (value : string)
    (comics : list Comic) (i j : nat) (a b : Comic) :
  Consistent c ->
  let out :=
    item <$> arraySort (sortRankedValues (fun x y => c (item x) (item y)))
                       (reduceItemsToRanked value 0 comics) in
  (i < j)%nat -> out !! i = Some a -> out !! j = Some b ->
  getMatchRanking (title b) value <= getMatchRanking (title a) value ∧
  (getMatchRanking (title a) value = getMatchRanking (title b) value ->
   c a b <= 0).
Proof.
  intros Hc out Hij Ha Hb. subst out.
  apply list_lookup_fmap_Some in Ha as (ra & -> & Ha).
  apply list_lookup_fmap_Some in Hb as (rb & -> & Hb).
  set (bs := fun x y : RankedItem => c (item x) (item y)) in *.
  assert (Forall (fun r => rank r = getMatchRanking (title (item r)) value ∧
                           keyIndex r = 0)
                 (arraySort (sortRankedValues bs)
                            (reduceItemsToRanked value 0 comics))) as Hall.
  { rewrite arraySort_Permutation. apply reduceItemsToRanked_ranks. }
  rewrite Forall_forall in Hall.
  destruct (Hall ra) as [Hra Hka]; [by eapply list_elem_of_lookup_2|].
  destruct (Hall rb) as [Hrb Hkb]; [by eapply list_elem_of_lookup_2|].
  pose proof (StronglySorted_lookup _ _ i j ra rb
                (arraySort_sorted _ _
                   (sortRankedValues_consistent bs (Consistent_items c Hc)))
                Hij Ha Hb) as Hord.
  unfold before, sortRankedValues in Hord. cbv zeta in Hord.
  rewrite <- Hra, <- Hrb. subst bs. simpl in Hord.
  compare_cases; lia.
Qed.

End Ranked.

Lemma filter_sublist {A : Type} (P : A -> bool) (l : list A) :
  sublist (List.filter P l) l.
Proof.
  induction l as [|x l IH]; simpl; [constructor|].
  destruct (P x); by constructor.
Qed.

Lemma elem_of_filter {A : Type} (P : A -> bool) (l : list A) (x : A) :
  x ∈ List.filter P l <-> x ∈ l ∧ P x = true.
Proof. rewrite !list_elem_of_In. apply filter_In. Qed.

Section PageFacts.
Context `{ComicsLib} `{Ranking}.

Lemma sortFunction_default (sortBy : string) :
  sortBy ≠ PublishDate -> sortBy ≠ Title -> sortBy ≠ UnlimitedDate ->
  sortFunction sortBy = None.
Proof.
  intros Hp Ht Hu. unfold sortFunction.
  destruct (decide (sortBy = PublishDate)); [done|].
  destruct (decide (sortBy = Title)); [done|].
  by destruct (decide (sortBy = UnlimitedDate)).
Qed.

Lemma sortComics_default (comics : list Comic) (sortBy searchText : string) :
  sortFunction sortBy = None ->
  sortComics comics sortBy searchText =
  item <$> arraySort
             (sortRankedValues
                (if JS.truthyString searchText
                 then (fun a b => compareTitles (item a) (item b))
                 else (fun a b => compareDates (item a) (item b))))
             (reduceItemsToRanked searchText 0 comics).
Proof. intros Hs. unfold sortComics, matchSorter. simpl. by rewrite Hs. Qed.

(** C7: under the best-match (default) key the matched records come
    best rank first, and two records of equal rank are ordered by title
    when the search text is not empty and by publish date when it is
    empty; with an empty text and one rank shared by all records the
    whole sequence is in publish-date order. *)
Theorem sortComics_best_match_tie_break (comics : list Comic)
    (sortBy searchText : string) :
  sortBy ≠ PublishDate -> sortBy ≠ Title -> sortBy ≠ UnlimitedDate ->
  (searchText ≠ "" -> Consistent compareTitles) ->
  (searchText = "" -> Consistent compareDates) ->
  let out := sortComics comics sortBy searchText in
  let rk := fun c => getMatchRanking (title c) searchText in
  out ≡ₚ List.filter (fun c => threshold <=? rk c) comics ∧
  ∀ i j a b, (i < j)%nat -> out !! i = Some a -> out !! j = Some b ->
    rk b <= rk a ∧
    (searchText ≠ "" -> rk a = rk b -> compareTitles a b <= 0) ∧
    (searchText = "" -> rk a = rk b -> compareDates a b <= 0) ∧
    (searchText = "" -> (∀ c c', c ∈ comics -> c' ∈ comics -> rk c = rk c') ->
     compareDates a b <= 0).
Proof.
  intros Hp Ht Hu Htitles Hdates out rk. subst out.
  rewrite sortComics_default by by apply sortFunction_default.
  split.
  { rewrite arraySort_Permutation. by rewrite reduceItemsToRanked_items. }
  intros i j a b Hij Ha Hb.
  destruct (decide (searchText = "")) as [->|Hne].
  - simpl in Ha, Hb.
    destruct (default_sorter_order compareDates "" comics i j a b
                (Hdates eq_refl) Hij Ha Hb) as [Hrank Htie].
    repeat split; [done|done|done|].
    intros _ Hshared. apply Htie.
    assert (∀ x k, (item <$> arraySort
                      (sortRankedValues
                         (fun a b => compareDates (item a) (item b)))
                      (reduceItemsToRanked "" 0 comics)) !! k = Some x ->
                   x ∈ comics) as Hmem.
    { intros x k Hx. apply list_elem_of_lookup_2 in Hx.
      rewrite arraySort_Permutation, reduceItemsToRanked_items in Hx.
      apply list_elem_of_In, filter_In in Hx as [Hx _].
      by apply list_elem_of_In. }
    apply Hshared; by eapply Hmem.
  - rewrite (truthyString_true _ Hne) in Ha, Hb.
    destruct (default_sorter_order compareTitles searchText comics i j a b
                (Htitles Hne) Hij Ha Hb) as [Hrank Htie].
    repeat split; done.
Qed.

(** C1, as amended: for every record set, sort key and search text the
    final sequence is the sorted sequence itself when the descending
    direction is requested and the reverse of the whole sorted sequence
    when it is not; so the descending output is the element-wise reverse
    of the ascending output, in particular for the title key and for
    inputs with duplicate titles. *)
Theorem orderedComics_direction (comics : list Comic)
    (sortBy searchText : string) :
  let sorted := sortComics comics sortBy searchText in
  orderedComics true sorted = sorted ∧
  orderedComics false sorted = reverse sorted ∧
  orderedComics true sorted = reverse (orderedComics false sorted) ∧
  id <$> orderedComics true (sortComics comics Title searchText) =
    reverse (id <$> orderedComics false (sortComics comics Title searchText)) ∧
  ∀ i a, (i < length sorted)%nat ->
         orderedComics true sorted !! i = Some a ->
         orderedComics false sorted !! (length sorted - S i)%nat = Some a.
Proof.
  intros sorted. unfold orderedComics.
  split; [done|]. split; [done|]. split; [by rewrite reverse_involutive|].
  split; [by rewrite <- fmap_reverse, reverse_involutive|].
  intros i a Hi Ha. rewrite reverse_lookup by lia.
  replace (length sorted - S (length sorted - S i))%nat with i by lia. done.
Qed.


End PageFacts.

End YearPageFacts.

(** * The modelled imports are consistent comparators *)

Module ModelFacts.
Import YearPage Model.

Lemma signOf_opp (c : comparison) :
  Z.sgn (signOf (CompOpp c)) = - Z.sgn (signOf c).
Proof. by destruct c. Qed.

Lemma signOf_le (c : comparison) : signOf c <= 0 <-> c ≠ Gt.
Proof. destruct c; simpl; split; (done || lia). Qed.

Lemma compareDate_antisym (a b : Date) :
  compareDate b a = CompOpp (compareDate a b).
Proof.
  unfold compareDate.
  rewrite (Z.compare_antisym (year a)), (Z.compare_antisym (month a)),
    (Z.compare_antisym (day a)).
  destruct (year a ?= year b); simpl; [|done..].
  by destruct (month a ?= month b).
Qed.

Lemma compareDate_trans (a b c : Date) :
  compareDate a b ≠ Gt -> compareDate b c ≠ Gt -> compareDate a c ≠ Gt.
Proof.
  unfold compareDate.
  destruct (Z.compare_spec (year a) (year b));
    destruct (Z.compare_spec (year b) (year c));
    destruct (Z.compare_spec (year a) (year c)); try lia; try done;
  destruct (Z.compare_spec (month a) (month b));
    destruct (Z.compare_spec (month b) (month c));
    destruct (Z.compare_spec (month a) (month c)); try lia; try done;
  destruct (Z.compare_spec (day a) (day b));
    destruct (Z.compare_spec (day b) (day c));
    destruct (Z.compare_spec (day a) (day c)); try lia; done.
Qed.

Lemma string_compare_trans (a b c : string) :
  String.compare a b ≠ Gt -> String.compare b c ≠ Gt ->
  String.compare a c ≠ Gt.
Proof.
  revert b c. induction a as [|x a IH]; intros [|y b] [|z c]; simpl;
    try done.
  unfold Ascii.compare.
  destruct (N.compare_spec (N_of_ascii x) (N_of_ascii y));
    destruct (N.compare_spec (N_of_ascii y) (N_of_ascii z));
    destruct (N.compare_spec (N_of_ascii x) (N_of_ascii z));
    try lia; try done.
  apply IH.
Qed.

Lemma compareDates_consistent : Consistent compareDates.
Proof.
  split.
  - intros a b. simpl.
    rewrite (compareDate_antisym (onSaleDate b) (onSaleDate a)), signOf_opp.
    lia.
  - intros a b c. simpl. rewrite !signOf_le. apply compareDate_trans.
Qed.

Lemma compareTitles_consistent : Consistent compareTitles.
Proof.
  split.
  - intros a b. simpl.
    rewrite (String.compare_antisym (title a) (title b)), signOf_opp. lia.
  - intros a b c. simpl. rewrite !signOf_le. apply string_compare_trans.
Qed.

End ModelFacts.

(** * The properties at concrete inputs *)

Module Runs.
Import Api Fixture ApiFacts.

Lemma getComics_cached_witness :
  ({[ 3 := okPage ]} : gmap Z ComicDataWrapper) !! 3 = Some okPage ∧
  getComics publicKey privateKey digest 1999 3 {[ 3 := okPage ]} ∅ refusedWorld
    = (Returned okPage, refusedWorld) ∧
  sent (getComics publicKey privateKey digest 1999 3 {[ 3 := okPage ]} ∅
          refusedWorld).2 = sent refusedWorld ∧
  written (redis (getComics publicKey privateKey digest 1999 3
                    {[ 3 := okPage ]} ∅ refusedWorld).2)
    = written (redis refusedWorld) ∧
  getComics publicKey privateKey digest 1999 3 {[ 3 := okPage ]} ∅
    (getComics publicKey privateKey digest 1999 3 {[ 3 := okPage ]} ∅
       refusedWorld).2
    = (Returned okPage, refusedWorld).
Proof.
  split; [reflexivity|].
  apply (getComics_cached publicKey privateKey digest 1999 3
           {[ 3 := okPage ]} ∅ refusedWorld okPage).
  reflexivity.
Defined.

Lemma getComics_persists_iff_success_witness :
  (∅ : gmap Z ComicDataWrapper) !! 3 = None ∧
  let run := getComics publicKey privateKey digest 1999 3 ∅ ∅ okWorld in
  run.1 = Returned okPage ∧
  written (redis run.2) =
    written (redis okWorld) ++
    (if code okPage =? 200 then [WriteAddComics 1999 3 okPage ∅] else []) ∧
  (code okPage = 200 -> redis run.2 = storedPage 1999 3 okPage ∅ (redis okWorld)) ∧
  (code okPage ≠ 200 -> redis run.2 = redis okWorld) ∧
  (WriteAddComics 1999 3 okPage ∅ ∈ drop (length (written (redis okWorld)))
                                         (written (redis run.2))
   <-> code okPage = 200).
Proof.
  split; [reflexivity|].
  apply (getComics_persists_iff_success publicKey privateKey digest 1999 3
           ∅ ∅ okWorld).
  reflexivity.
Defined.

Lemma getTotalComics_status_witness :
  JS.truthyNumber (kv (redis refusedWorld) !! totalKey 1999) && negb false
    = false ∧
  upstream refusedWorld (length (sent refusedWorld))
    (totalRequest publicKey privateKey digest
       (clock refusedWorld (ticks refusedWorld)) 1999)
    = Some {| body := Some refusedPage |} ∧
  wellFormed refusedPage = true ∧
  let run := getTotalComics publicKey privateKey digest false 1999 refusedWorld in
  sent run.2 =
    sent refusedWorld ++
    [totalRequest publicKey privateKey digest
       (clock refusedWorld (ticks refusedWorld)) 1999] ∧
  (code refusedPage ≠ 200 ->
     run.1 = Returned (-1) ∧
     redis run.2 = redis refusedWorld ∧
     sent (getTotalComics publicKey privateKey digest false 1999 run.2).2 =
       sent run.2 ++
       [totalRequest publicKey privateKey digest
          (clock run.2 (ticks run.2)) 1999]) ∧
  (code refusedPage = 200 ->
     ∃ d, data refusedPage = Some d ∧
          run.1 = Returned (total d) ∧
          redis run.2 = stored (totalKey 1999) (total d) (redis refusedWorld) ∧
          kv (redis run.2) !! totalKey 1999 = Some (total d)) ∧
  (∀ k v, WriteSet k v ∈ written (redis run.2) ->
          WriteSet k v ∈ written (redis refusedWorld) ∨ v ≠ -1).
Proof.
  split; [reflexivity|]. split; [reflexivity|]. split; [reflexivity|].
  apply (getTotalComics_status publicKey privateKey digest false 1999
           refusedWorld refusedPage); reflexivity.
Defined.

Lemma getTotalComics_zero_not_served_witness :
  kv (redis zeroWorld) !! totalKey 1999 = Some 0 ∧
  let run := getTotalComics publicKey privateKey digest false 1999 zeroWorld in
  let absent :=
    getTotalComics publicKey privateKey digest false 1999
      (setRedis (forgetting (totalKey 1999) (redis zeroWorld)) zeroWorld) in
  sent run.2 =
    sent zeroWorld ++
    [totalRequest publicKey privateKey digest
       (clock zeroWorld (ticks zeroWorld)) 1999] ∧
  run.1 = absent.1 ∧
  sent run.2 = sent absent.2.
Proof.
  split; [reflexivity|].
  apply (getTotalComics_zero_not_served publicKey privateKey digest false 1999
           zeroWorld).
  reflexivity.
Defined.

Lemma getRandomComics_no_duplicates_witness :
  (1999 ≠ 0 ∧ 2020 ≠ 0) ∧
  let sample :=
    sampleByYearRange (redis okWorld) 1999 2020 (clock okWorld (ticks okWorld)) in
  ∃ l, getRandomComics (Some 1999) (Some 2020) okWorld = (Returned l, tick okWorld) ∧
       l = dedupe sample id ∧
       NoDup (id <$> l) ∧
       sublist l sample ∧
       (∀ k, k ∈ id <$> sample -> k ∈ id <$> l) ∧
       head l = head sample.
Proof.
  split; [split; lia|].
  apply (getRandomComics_no_duplicates 1999 2020 okWorld); lia.
Defined.

Example getComics_request_1999_page_3 :
  sent (getComics publicKey privateKey digest 1999 3 ∅ ∅ okWorld).2 =
  [ {| endpoint := "https://gateway.marvel.com/v1/public/comics";
       search :=
         [ ("formatType", "comic"); ("noVariants", "true");
           ("dateRange", "1999-01-01,1999-12-31");
           ("hasDigitalIssue", "true"); ("limit", "100");
           ("offset", "300"); ("orderBy", "modified");
           ("apikey", "pub"); ("hash", "md5:1600000000000privpub");
           ("ts", "1600000000000") ] |} ].
Proof. vm_compute. reflexivity. Qed.

Example getTotalComics_success_is_cached :
  let run := getTotalComics publicKey privateKey digest false 1999 okWorld in
  run.1 = Returned 1234 ∧
  kv (redis run.2) !! "year:1999:total" = Some 1234 ∧
  (getTotalComics publicKey privateKey digest false 1999 run.2).1
    = Returned 1234 ∧
  length (sent (getTotalComics publicKey privateKey digest false 1999 run.2).2)
    = 1%nat.
Proof. vm_compute. repeat split. Qed.

Example getRandomComics_without_bounds :
  (getRandomComics None None okWorld).1 = Returned [hulk; hulk] ∧
  (getRandomComics (Some 1999) None okWorld).1 = Returned [hulk; hulk] ∧
  (getRandomComics (Some 1999) (Some 2020) okWorld).1
    = Returned [spidey; hulk].
Proof. vm_compute. repeat split. Qed.

(** C6, as stated, fails when a bound is given as 0: both bounds are
    given, yet the clock is not read, the unconditional sample is
    returned as it is, and it repeats an id. *)
Lemma getRandomComics_zero_bound_duplicates :
  getRandomComics (Some 0) (Some 2020) okWorld
    = (Returned [hulk; hulk], okWorld) ∧
  ¬ NoDup (id <$> [hulk; hulk]) ∧
  ticks (getRandomComics (Some 0) (Some 2020) okWorld).2 = ticks okWorld.
Proof.
  split; [reflexivity|]. split; [|reflexivity].
  intros Hnd. apply NoDup_cons in Hnd as [Hin _]. apply Hin. by left.
Qed.

End Runs.

Module PageRuns.
Import YearPage Model YearPageFacts ModelFacts.

Lemma sortComics_best_match_tie_break_witness :
  (BestMatch ≠ PublishDate ∧ BestMatch ≠ Title ∧ BestMatch ≠ UnlimitedDate) ∧
  let comics := [avengers; amazing; astonishing] in
  let out := sortComics comics BestMatch "" in
  let rk := fun c => getMatchRanking (title c) "" in
  out ≡ₚ List.filter (fun c => threshold <=? rk c) comics ∧
  ∀ i j a b, (i < j)%nat -> out !! i = Some a -> out !! j = Some b ->
    rk b <= rk a ∧
    ("" ≠ "" -> rk a = rk b -> compareTitles a b <= 0) ∧
    ("" = "" -> rk a = rk b -> compareDates a b <= 0) ∧
    ("" = "" -> (∀ c c', c ∈ comics -> c' ∈ comics -> rk c = rk c') ->
     compareDates a b <= 0).
Proof.
  split; [by repeat split|].
  apply (sortComics_best_match_tie_break [avengers; amazing; astonishing]
           BestMatch ""); try done.
  intros _. apply compareDates_consistent.
Defined.

(** The same property for a search text that is not empty. *)
Example best_match_search_ties_by_title :
  let comics := [avengers; amazing; astonishing] in
  let out := sortComics comics BestMatch "a" in
  let rk := fun c => getMatchRanking (title c) "a" in
  ∀ i j a b, (i < j)%nat -> out !! i = Some a -> out !! j = Some b ->
    rk b <= rk a ∧ (rk a = rk b -> compareTitles a b <= 0).
Proof.
  intros comics out rk i j a b Hij Ha Hb.
  destruct (default_sorter_order compareTitles "a" comics i j a b
              compareTitles_consistent Hij Ha Hb) as [Hrank Htie].
  done.
Qed.

(** The scenarios of the spec, run with the modelled imports. *)
Example scenario_search_ama :
  id <$> orderedComics false (sortComics [amazing; astonishing] BestMatch "ama")
  = ["1"].
Proof. reflexivity. Qed.

Example scenario_no_search :
  id <$> sortComics [amazing; astonishing] BestMatch "" = ["2"; "1"] ∧
  id <$> orderedComics true (sortComics [amazing; astonishing] BestMatch "")
  = ["2"; "1"] ∧
  id <$> orderedComics false (sortComics [amazing; astonishing] BestMatch "")
  = ["1"; "2"].
Proof. repeat split. Qed.


(** An empty selection in one category, the other two in full: with the
    modelled imports no record has a creator or an event in the empty
    set, so each of the three hides everything. *)
Example empty_selection_is_no_shortcut :
  let creatorsStore : gset string := {[ "Lee"; "Ditko"; "Kirby" ]} in
  let eventsStore : gset string := {[ "Secret Wars" ]} in
  let seriesStore : gset string := {[ "ASM"; "AVG" ]} in
  let comics := [avengers; amazing; astonishing] in
  let filter := filterComics creatorsStore eventsStore seriesStore comics in
  filter ∅ creatorsStore eventsStore (-1) = [] ∧
  filter seriesStore ∅ eventsStore (-1) = [] ∧
  filter seriesStore creatorsStore ∅ (-1) = [] ∧
  id <$> filter {[ "ASM" ]} creatorsStore eventsStore (-1) = ["1"; "2"] ∧
  id <$> filter seriesStore {[ "Kirby" ]} eventsStore (-1) = ["3"] ∧
  id <$> filter seriesStore creatorsStore {[ "Secret Wars" ]} (-1)
    = ["3"; "1"; "2"] ∧
  id <$> filter {[ "XYZ"; "ASM" ]} creatorsStore eventsStore (-1)
    = ["3"; "1"; "2"].
Proof. vm_compute. repeat split. Qed.

(** C1, as stated, fails: with the descending direction requested the
    final sequence is the sorted sequence, not its reverse, and with the
    ascending direction requested it is the reverse. *)
Lemma orderedComics_descending_not_reversed :
  let sorted := sortComics [avengers; astonishing; amazing] Title "" in
  id <$> sorted = ["1"; "2"; "3"] ∧
  id <$> orderedComics true sorted = ["1"; "2"; "3"] ∧
  id <$> orderedComics false sorted = ["3"; "2"; "1"] ∧
  orderedComics true sorted ≠ reverse sorted ∧
  orderedComics false sorted ≠ sorted.
Proof.
  cbv zeta. split; [reflexivity|]. split; [reflexivity|].
  split; [reflexivity|].
  split; intros Heq; apply (f_equal (fmap id)) in Heq;
    vm_compute in Heq; discriminate.
Qed.

End PageRuns.

(** * Further properties of the fetcher *)

Module ApiMore.
Import Api ApiFacts.

(** ** Objects and strings *)

Lemma getProp_setProp_eq (k v : string) (o : JS.object) :
  JS.getProp k (JS.setProp k v o) = Some v.
Proof.
  induction o as [|[k' v'] o IH]; simpl.
  - by destruct (decide (k = k)).
  - destruct (decide (k' = k)) as [->|Hne]; simpl.
    + by destruct (decide (k = k)).
    + by destruct (decide (k' = k)).
Qed.

Lemma getProp_setProp_ne (k k' v : string) (o : JS.object) :
  k ≠ k' -> JS.getProp k' (JS.setProp k v o) = JS.getProp k' o.
Proof.
  intros Hne. induction o as [|[k0 v0] o IH]; simpl.
  - by destruct (decide (k = k')).
  - destruct (decide (k0 = k)) as [->|Hk0]; simpl.
    + destruct (decide (k = k')); [done|]. done.
    + destruct (decide (k0 = k')); [done|]. apply IH.
Qed.

Lemma append_same_length (a b s t : string) :
  String.length a = String.length b -> a +:+ s = b +:+ t -> a = b ∧ s = t.
Proof.
  revert b. induction a as [|x a IH]; intros [|y b]; simpl; try done.
  intros Hlen Heq. injection Hlen as Hlen. injection Heq as -> Heq.
  destruct (IH b Hlen Heq) as [-> ->]. done.
Qed.

Lemma append_length (a b : string) :
  String.length (a +:+ b) = (String.length a + String.length b)%nat.
Proof. induction a as [|x a IH]; simpl; [done|]. by rewrite IH. Qed.

Lemma append_inv_tail (a b t : string) : a +:+ t = b +:+ t -> a = b.
Proof.
  intros Heq. apply (append_same_length a b t t); [|done].
  apply (f_equal String.length) in Heq. rewrite !append_length in Heq. lia.
Qed.

Lemma toString_inj (m n : Z) : JS.toString m = JS.toString n -> m = n.
Proof. apply pretty_Z_inj. Qed.

Lemma totalKey_inj (y1 y2 : Z) : totalKey y1 = totalKey y2 -> y1 = y2.
Proof.
  intros Heq. unfold totalKey in Heq.
  apply (inj (String.app "year:")) in Heq.
  apply append_inv_tail in Heq. by apply toString_inj.
Qed.

(** X6: years never share a cache key: the keys of the totals of two
    different years differ. *)
Theorem totalKey_distinct (y1 y2 : Z) : y1 ≠ y2 -> totalKey y1 ≠ totalKey y2.
Proof. intros Hne Heq. by apply Hne, totalKey_inj. Qed.

Section MoreRuns.
Variable PUBLIC_KEY PRIVATE_KEY : option string.
Variable md5 : string -> string.

Local Abbreviation callMarvelApi := (callMarvelApi PUBLIC_KEY PRIVATE_KEY md5).
Local Abbreviation getComics := (getComics PUBLIC_KEY PRIVATE_KEY md5).
Local Abbreviation getTotalComics := (getTotalComics PUBLIC_KEY PRIVATE_KEY md5).
Local Abbreviation pageRequest := (pageRequest PUBLIC_KEY PRIVATE_KEY md5).
Local Abbreviation totalRequest := (totalRequest PUBLIC_KEY PRIVATE_KEY md5).

(** X1: whatever parameters the caller passes, [callMarvelApi] on the
    comics endpoint sends exactly one request, to that endpoint, whose
    apikey, hash and ts are the credentials of this call (a caller's
    values under these names are replaced) and whose other parameters
    are the caller's; it reads the clock once and leaves the store
    alone. *)
Theorem callMarvelApi_credentials_win (params : JS.object) (w : World) :
  let run := callMarvelApi COMICS_ENDPOINT params w in
  let ts := JS.toString (clock w (ticks w)) in
  ∃ rq, sent run.2 = sent w ++ [rq] ∧
        endpoint rq = COMICS_ENDPOINT ∧
        JS.getProp "apikey" (search rq) = Some (JS.ofEnv PUBLIC_KEY) ∧
        JS.getProp "hash" (search rq)
          = Some (md5 (ts +:+ JS.ofEnv PRIVATE_KEY +:+ JS.ofEnv PUBLIC_KEY)) ∧
        JS.getProp "ts" (search rq) = Some ts ∧
        (∀ k, k ≠ "apikey" -> k ≠ "hash" -> k ≠ "ts" ->
              JS.getProp k (search rq) = JS.getProp k params) ∧
        redis run.2 = redis w ∧
        ticks run.2 = S (ticks w).
Proof.
  intros run ts. subst run. rewrite callMarvelApi_run. cbv zeta.
  exists (signedRequest PUBLIC_KEY PRIVATE_KEY md5 (clock w (ticks w)) params).
  split; [by destruct (upstream w _ _)|]. split; [done|].
  unfold signedRequest, JS.spread. simpl. fold ts.
  split.
  { rewrite !getProp_setProp_ne by done. apply getProp_setProp_eq. }
  split.
  { rewrite getProp_setProp_ne by done. apply getProp_setProp_eq. }
  split; [apply getProp_setProp_eq|].
  split.
  { intros k Ha Hh Ht'. by rewrite !getProp_setProp_ne by done. }
  by destruct (upstream w _ _).
Qed.

(** X2: [getTotalComics] answers from the cache exactly when the cached
    total is not 0 and the cache is not bypassed, and then it leaves the
    world as it was; in every other case it reads the clock once and
    sends exactly one request. *)
Theorem getTotalComics_one_round_trip (ignoreCache : bool) (year : Z)
    (w : World) :
  let run := getTotalComics ignoreCache year w in
  match kv (redis w) !! totalKey year with
  | Some v =>
      if negb (v =? 0) && negb ignoreCache
      then run = (Returned v, w)
      else sent run.2 = sent w ++ [totalRequest (clock w (ticks w)) year] ∧
           ticks run.2 = S (ticks w)
  | None =>
      sent run.2 = sent w ++ [totalRequest (clock w (ticks w)) year] ∧
      ticks run.2 = S (ticks w)
  end.
Proof.
  intros run. subst run.
  assert (JS.truthyNumber (kv (redis w) !! totalKey year) && negb ignoreCache
          = false ->
          sent (getTotalComics ignoreCache year w).2
            = sent w ++ [totalRequest (clock w (ticks w)) year] ∧
          ticks (getTotalComics ignoreCache year w).2 = S (ticks w)) as Hmiss.
  { intros Hm. split; [by apply getTotalComics_miss_sent|].
    rewrite getTotalComics_miss by done. cbv zeta.
    destruct (upstream w _ _) as [[[p|]]|]; try done.
    destruct (code p =? 200); [|done]. by destruct (data p). }
  destruct (kv (redis w) !! totalKey year) as [v|] eqn:Hkv; [|by apply Hmiss].
  destruct (negb (v =? 0) && negb ignoreCache) eqn:Hg; [|by apply Hmiss].
  apply andb_true_iff in Hg as [Hv Hic]. destruct ignoreCache; [done|].
  apply getTotalComics_hit; [done|].
  intros ->. done.
Qed.

(** X3: a total fetched with success is served from the cache afterwards:
    when the first call misses, the service answers 200 with a total
    other than 0, and the cache is not bypassed, the next call returns
    the same total and leaves the world as the first call left it. *)
Theorem getTotalComics_then_cached (year : Z) (w : World)
    (p : ComicDataWrapper) (d : ComicDataContainer) :
  JS.truthyNumber (kv (redis w) !! totalKey year) = false ->
  upstream w (length (sent w)) (totalRequest (clock w (ticks w)) year)
    = Some {| body := Some p |} ->
  code p = 200 -> data p = Some d -> total d ≠ 0 ->
  let first := getTotalComics false year w in
  first.1 = Returned (total d) ∧
  getTotalComics false year first.2 = (Returned (total d), first.2).
Proof.
  intros Hmiss Hup Hcode Hd Hne first. subst first.
  rewrite (getTotalComics_miss _ _ _ false year w) by by rewrite Hmiss.
  cbv zeta. rewrite Hup, Hcode, Hd. simpl. split; [done|].
  apply getTotalComics_hit; [|done]. simpl. apply lookup_insert_eq.
Qed.

(** X4: a call of [getTotalComics] that rejects, for whatever reason,
    has read the clock once, has sent its one request and has written
    nothing to the store. *)
Theorem getTotalComics_rejection_writes_nothing (ignoreCache : bool)
    (year : Z) (w : World) (e : Error) :
  (getTotalComics ignoreCache year w).1 = Thrown e ->
  let run := getTotalComics ignoreCache year w in
  redis run.2 = redis w ∧
  written (redis run.2) = written (redis w) ∧
  sent run.2 = sent w ++ [totalRequest (clock w (ticks w)) year] ∧
  ticks run.2 = S (ticks w).
Proof.
  intros Hthrown run. subst run.
  destruct (JS.truthyNumber (kv (redis w) !! totalKey year) && negb ignoreCache)
    eqn:Hg.
  { exfalso. revert Hthrown. unfold Api.getTotalComics.
    unfold mbind, Async_bind, bind, redisGet. by rewrite Hg. }
  revert Hthrown. rewrite getTotalComics_miss by done. cbv zeta.
  destruct (upstream w _ _) as [[[p|]]|]; simpl; try done.
  destruct (code p =? 200); [|done]. by destruct (data p).
Qed.

(** X5: [getTotalComics] for a year touches nothing but the total of that
    year: the pages, the samplers and the cached total of every other
    year are as before. *)
Theorem getTotalComics_frame (ignoreCache : bool) (year other : Z)
    (w : World) :
  other ≠ year ->
  let run := getTotalComics ignoreCache year w in
  kv (redis run.2) !! totalKey other = kv (redis w) !! totalKey other ∧
  pages (redis run.2) = pages (redis w) ∧
  sampleByYearRange (redis run.2) = sampleByYearRange (redis w) ∧
  sampleAny (redis run.2) = sampleAny (redis w).
Proof.
  intros Hne run. subst run.
  assert (totalKey year ≠ totalKey other) as Hkey
    by (intros Heq; by apply Hne, eq_sym, totalKey_inj).
  destruct (JS.truthyNumber (kv (redis w) !! totalKey year) && negb ignoreCache)
    eqn:Hg.
  { unfold Api.getTotalComics. unfold mbind, Async_bind, bind, redisGet.
    by rewrite Hg. }
  rewrite getTotalComics_miss by done. cbv zeta.
  destruct (upstream w _ _) as [[[p|]]|]; try done.
  destruct (code p =? 200); [|done]. destruct (data p); [|done]. simpl.
  split; [|done]. by apply lookup_insert_ne.
Qed.

(** X7: [getComics] makes at most one call on the store, and never
    [set]: what it adds to the writes of the store is nothing, or the one
    [addComics] for its own year and page, made on a cache miss with the
    page it returns, whose code is 200, and with the ids it was given. *)
Theorem getComics_store_calls (year page : Z)
    (cache : gmap Z ComicDataWrapper) (ids : gset string) (w : World) :
  let run := getComics year page cache ids w in
  (written (redis run.2) = written (redis w) ∨
   ∃ r, written (redis run.2)
          = written (redis w) ++ [WriteAddComics year page r ids] ∧
        run.1 = Returned r ∧ code r = 200 ∧ cache !! page = None) ∧
  (∀ k v, WriteSet k v ∈ written (redis run.2) ->
          WriteSet k v ∈ written (redis w)) ∧
  (∀ r, cache !! page = None -> run.1 = Returned r -> code r = 200 ->
        written (redis run.2)
          = written (redis w) ++ [WriteAddComics year page r ids]) ∧
  (∀ r, run.1 = Returned r -> code r ≠ 200 ->
        written (redis run.2) = written (redis w)).
Proof.
  intros run. subst run.
  destruct (cache !! page) as [c|] eqn:Hc.
  { unfold Api.getComics. rewrite Hc. simpl. repeat split; try done.
    by left. }
  rewrite getComics_miss by done. cbv zeta.
  destruct (upstream w _ _) as [[[p|]]|]; simpl;
    try (repeat split; try done; by left).
  destruct (Z.eqb_spec (code p) 200) as [Hcode|Hcode]; simpl.
  - split; [right; by exists p|]. split; [|split].
    + intros k v [Hin|Hin]%elem_of_app; [done|].
      by apply list_elem_of_singleton in Hin.
    + intros r _ Heq _. by injection Heq as <-.
    + intros r Heq Hr. by injection Heq as <-.
  - split; [by left|]. repeat split; try done.
    intros r _ Heq Hr. by injection Heq as <-.
Qed.

(** X8: the request of a page tells the year and the page: two requests for
    different years or different pages differ, whatever the clock
    reads. *)
Theorem pageRequest_distinct (now now' year year' page page' : Z) :
  year ≠ year' ∨ page ≠ page' ->
  pageRequest now year page ≠ pageRequest now' year' page'.
Proof.
  intros Hne Heq. unfold Api.pageRequest, signedRequest in Heq.
  unfold JS.spread in Heq. simpl in Heq.
  injection Heq as Hrange Hoffset _ _.
  apply toString_inj in Hoffset.
  assert (String.length (JS.toString year) = String.length (JS.toString year'))
    as Hlen.
  { apply (f_equal String.length) in Hrange.
    rewrite !append_length in Hrange. simpl in Hrange. lia. }
  apply append_same_length in Hrange as [Hyear _]; [|done].
  apply toString_inj in Hyear. unfold MAX_LIMIT in Hoffset.
  destruct Hne; lia.
Qed.

End MoreRuns.

(** [getRandomComics] never rejects, never sends a request and never
    changes the store; it reads the clock exactly when both bounds are
    given and not 0. *)
Lemma getRandomComics_effects (startYear endYear : option Z) (w : World) :
  let run := getRandomComics startYear endYear w in
  (∃ l, run.1 = Returned l) ∧
  redis run.2 = redis w ∧
  sent run.2 = sent w ∧
  ticks run.2 =
    if JS.truthyNumber startYear && JS.truthyNumber endYear
    then S (ticks w) else ticks w.
Proof.
  intros run. subst run. unfold getRandomComics.
  destruct (JS.truthyNumber startYear && JS.truthyNumber endYear); simpl.
  - by eauto.
  - by eauto.
Qed.

End ApiMore.

(** * Further properties of the year page *)

Module PageMore.
Import YearPage YearPageFacts.

(** ** Stability of the sort *)

Section Stable.
Context {A : Type} (cmp : A -> A -> Z).

Lemma Consistent_tied (z x y : A) :
  Consistent cmp -> cmp z x = 0 -> cmp z y = 0 -> cmp x y <= 0.
Proof.
  intros [Hsgn Htrans] Hx Hy. apply (Htrans x z y); [|lia].
  pose proof (Hsgn z x) as Hs. rewrite Hx in Hs. simpl in Hs.
  destruct (Z.sgn_spec (cmp x z)) as [[? ?]|[[? ?]|[? ?]]]; lia.
Qed.

Lemma insertSorted_tied (z x : A) (l : list A) :
  Consistent cmp ->
  List.filter (fun y => cmp z y =? 0) (insertSorted cmp x l) =
  List.filter (fun y => cmp z y =? 0) (x :: l).
Proof.
  intros Hc. induction l as [|y l IH]; [done|].
  cbn [insertSorted]. destruct (Z.leb_spec (cmp x y) 0) as [Hle|Hgt]; [done|].
  cbn [List.filter] in *. rewrite IH.
  destruct (Z.eqb_spec (cmp z x) 0) as [Hx|Hx];
    destruct (Z.eqb_spec (cmp z y) 0) as [Hy|Hy]; try done.
  pose proof (Consistent_tied z x y Hc Hx Hy). lia.
Qed.

(** Elements that the comparator ties with [z] keep their order. *)
Lemma arraySort_stable (z : A) (l : list A) :
  Consistent cmp ->
  List.filter (fun y => cmp z y =? 0) (arraySort cmp l) =
  List.filter (fun y => cmp z y =? 0) l.
Proof.
  intros Hc. induction l as [|x l IH]; [done|].
  cbn [arraySort foldr]. rewrite insertSorted_tied by done.
  cbn [List.filter]. fold (arraySort cmp l). by rewrite IH.
Qed.

End Stable.

Lemma filter_fmap {A B : Type} (f : A -> B) (P : B -> bool) (l : list A) :
  List.filter P (f <$> l) = f <$> List.filter (fun x => P (f x)) l.
Proof.
  induction l as [|x l IH]; [done|]. cbn [fmap list_fmap List.filter].
  destruct (P (f x)); cbn [fmap list_fmap]; by rewrite IH.
Qed.

Section SortMore.
Context `{ComicsLib} `{Ranking}.

(** The records [matchSorter] keeps for a search text. *)
Local Abbreviation matched searchText comics :=
  (List.filter
     (fun c => threshold <=? getMatchRanking (title c) searchText) comics).

Lemma sortComics_custom (comics : list Comic) (sortBy searchText : string)
    (cmp : Comic -> Comic -> Z) :
  sortFunction sortBy = Some (arraySort (fun a b => cmp (item a) (item b))) ->
  sortComics comics sortBy searchText =
  item <$> arraySort (fun a b => cmp (item a) (item b))
             (reduceItemsToRanked searchText 0 comics).
Proof. intros Hs. unfold sortComics, matchSorter. simpl. by rewrite Hs. Qed.

Lemma sortComics_custom_sorted (comics : list Comic)
    (sortBy searchText : string) (cmp : Comic -> Comic -> Z) :
  sortFunction sortBy = Some (arraySort (fun a b => cmp (item a) (item b))) ->
  Consistent cmp ->
  StronglySorted (before cmp) (sortComics comics sortBy searchText).
Proof.
  intros Hs Hc. rewrite (sortComics_custom _ _ _ cmp) by done.
  apply (StronglySorted_fmap item
           (before (fun a b : RankedItem => cmp (item a) (item b)))).
  - done.
  - apply arraySort_sorted. by apply Consistent_items.
Qed.

Lemma sortComics_custom_stable (comics : list Comic)
    (sortBy searchText : string) (cmp : Comic -> Comic -> Z) (z : Comic) :
  sortFunction sortBy = Some (arraySort (fun a b => cmp (item a) (item b))) ->
  Consistent cmp ->
  List.filter (fun c => cmp z c =? 0) (sortComics comics sortBy searchText) =
  List.filter (fun c => cmp z c =? 0) (matched searchText comics).
Proof.
  intros Hs Hc. rewrite (sortComics_custom _ _ _ cmp) by done.
  rewrite <- (reduceItemsToRanked_items searchText 0 comics), !filter_fmap.
  f_equal.
  apply (arraySort_stable (fun a b : RankedItem => cmp (item a) (item b))
           {| rank := 0; keyIndex := 0; item := z; index := 0 |}).
  by apply Consistent_items.
Qed.

Lemma sortComics_Permutation (comics : list Comic) (sortBy searchText : string) :
  sortComics comics sortBy searchText ≡ₚ matched searchText comics.
Proof.
  unfold sortComics, matchSorter, sortFunction. simpl.
  rewrite <- (reduceItemsToRanked_items searchText 0 comics).
  repeat case_decide; simpl; by rewrite arraySort_Permutation.
Qed.

(** X9: whatever the sort key, [sortComics] returns the records that match
    the search text, each as often as the input has it: a record is in
    the result exactly when it is in the input and its rank reaches the
    threshold, and with no record in the input the result is empty. *)
Theorem sortComics_keeps_matches (comics : list Comic)
    (sortBy searchText : string) :
  sortComics comics sortBy searchText ≡ₚ matched searchText comics ∧
  (∀ c, c ∈ sortComics comics sortBy searchText <->
        c ∈ comics ∧ threshold <= getMatchRanking (title c) searchText) ∧
  (length (sortComics comics sortBy searchText) <= length comics)%nat ∧
  sortComics [] sortBy searchText = [].
Proof.
  pose proof (sortComics_Permutation comics sortBy searchText) as Hperm.
  split; [done|]. split; [|split].
  - intros c. rewrite Hperm, elem_of_filter. by rewrite Z.leb_le.
  - rewrite Hperm. apply sublist_length, filter_sublist.
  - apply Permutation_nil_r. unfold sortComics, matchSorter, sortFunction.
    simpl. repeat case_decide; simpl; done.
Qed.

(** X10: under the keys title, publish date and unlimited date the result is
    in the order of the key's comparator alone, whatever the ranks of
    the records are. *)
Theorem sortComics_custom_key_order (comics : list Comic) (searchText : string) :
  Consistent compareTitles ->
  Consistent compareDates ->
  Consistent compareUnlimitedDates ->
  StronglySorted (before compareTitles) (sortComics comics Title searchText) ∧
  StronglySorted (before compareDates)
    (sortComics comics PublishDate searchText) ∧
  StronglySorted (before compareUnlimitedDates)
    (sortComics comics UnlimitedDate searchText).
Proof.
  intros Ht Hd Hu. repeat split; by apply sortComics_custom_sorted.
Qed.

(** X11: under the keys title, publish date and unlimited date the sort is
    stable: the records that the key's comparator ties with a record [z]
    come in the order they have in the input. *)
Theorem sortComics_custom_key_stable (comics : list Comic)
    (searchText : string) (z : Comic) :
  Consistent compareTitles ->
  Consistent compareDates ->
  Consistent compareUnlimitedDates ->
  List.filter (fun c => compareTitles z c =? 0)
    (sortComics comics Title searchText)
  = List.filter (fun c => compareTitles z c =? 0) (matched searchText comics) ∧
  List.filter (fun c => compareDates z c =? 0)
    (sortComics comics PublishDate searchText)
  = List.filter (fun c => compareDates z c =? 0) (matched searchText comics) ∧
  List.filter (fun c => compareUnlimitedDates z c =? 0)
    (sortComics comics UnlimitedDate searchText)
  = List.filter (fun c => compareUnlimitedDates z c =? 0)
      (matched searchText comics).
Proof.
  intros Ht Hd Hu. repeat split; by apply sortComics_custom_stable.
Qed.

(** X12: under the best-match (default) key the sort is stable as well: the
    records that have the rank of a record [z] and that the tie-break
    comparator ties with [z] come in the order they have in the input. *)
Theorem sortComics_best_match_stable (comics : list Comic)
    (sortBy searchText : string) (z : Comic) :
  sortBy ≠ PublishDate -> sortBy ≠ Title -> sortBy ≠ UnlimitedDate ->
  let tie := if JS.truthyString searchText then compareTitles else compareDates in
  let rk := fun c => getMatchRanking (title c) searchText in
  Consistent tie ->
  List.filter (fun c => (rk z =? rk c) && (tie z c =? 0))
    (sortComics comics sortBy searchText)
  = List.filter (fun c => (rk z =? rk c) && (tie z c =? 0))
      (matched searchText comics).
Proof.
  intros Hp Ht Hu tie rk Hc.
  rewrite sortComics_default by by apply sortFunction_default.
  rewrite <- (reduceItemsToRanked_items searchText 0 comics), !filter_fmap.
  f_equal.
  set (bs := fun a b : RankedItem => tie (item a) (item b)).
  replace (if JS.truthyString searchText
           then fun a b : RankedItem => compareTitles (item a) (item b)
           else fun a b : RankedItem => compareDates (item a) (item b))
    with bs by (subst bs tie; by destruct (JS.truthyString searchText)).
  set (zr := {| rank := rk z; keyIndex := 0; item := z; index := 0 |}).
  set (l := reduceItemsToRanked searchText 0 comics).
  assert (∀ l', l' ≡ₚ l ->
            List.filter (fun x => (rk z =? rk (item x)) && (tie z (item x) =? 0)) l'
            = List.filter (fun x => sortRankedValues bs zr x =? 0) l') as Hext.
  { intros l' Hl'. apply List.filter_ext_in. intros r Hr.
    apply list_elem_of_In in Hr. rewrite Hl' in Hr.
    pose proof (reduceItemsToRanked_ranks searchText 0 comics) as Hall.
    rewrite Forall_forall in Hall. destruct (Hall r Hr) as [Hrank Hkey].
    unfold sortRankedValues. cbv zeta. simpl. rewrite Hrank, Hkey. simpl.
    fold (rk (item r)). subst bs. simpl.
    destruct (rk z =? rk (item r)); [done|].
    simpl. by destruct (rk (item r) <? rk z). }
  rewrite (Hext (arraySort (sortRankedValues bs) l))
    by apply arraySort_Permutation.
  rewrite (Hext l) by done.
  apply arraySort_stable, sortRankedValues_consistent.
  by apply Consistent_items.
Qed.

End SortMore.

(** ** The filter *)

Section FilterMore.
Context `{ComicsLib}.
Variables creatorsStore eventsStore seriesStore : gset string.

Local Abbreviation filterComics :=
  (filterComics creatorsStore eventsStore seriesStore).

(** X13: [filterComics] keeps the records in the order of the input and keeps
    a record exactly when it meets each of the four criteria: the month
    (when one is chosen), and for series, creators and events either the
    size shortcut or the selection. *)
Theorem filterComics_keeps (comics : list Comic)
    (selectedSeries selectedCreators selectedEvents : gset string)
    (monthIndex : Z) :
  let kept :=
    filterComics comics selectedSeries selectedCreators selectedEvents
      monthIndex in
  sublist kept comics ∧
  ∀ c, c ∈ kept <->
       c ∈ comics ∧
       (monthIndex < 0 ∨ getOnSaleMonth c = monthIndex) ∧
       (size selectedSeries = size seriesStore ∨
        seriesName c ∈ selectedSeries) ∧
       (size selectedCreators = size creatorsStore ∨
        isCreatorSelected c selectedCreators = true) ∧
       (size selectedEvents = size eventsStore ∨
        isEventSelected c selectedEvents = true).
Proof.
  intros kept. subst kept. split; [apply filter_sublist|].
  intros c. unfold YearPage.filterComics. rewrite elem_of_filter.
  rewrite !andb_true_iff, !orb_true_iff, !bool_decide_eq_true.
  rewrite Z.ltb_lt, Z.eqb_eq. tauto.
Qed.

(** X14: when the selected series are among the series of the store and the
    series of every record is in the store, every record the filter
    keeps has a selected series, whether or not the size shortcut
    applies. *)
Theorem filterComics_series_selected (comics : list Comic)
    (selectedSeries selectedCreators selectedEvents : gset string)
    (monthIndex : Z) (c : Comic) :
  selectedSeries ⊆ seriesStore ->
  (∀ x, x ∈ comics -> seriesName x ∈ seriesStore) ->
  c ∈ filterComics comics selectedSeries selectedCreators selectedEvents
        monthIndex ->
  seriesName c ∈ selectedSeries.
Proof.
  intros Hsub Hall Hc. unfold YearPage.filterComics in Hc.
  apply elem_of_filter in Hc as [Hin Hc].
  rewrite !andb_true_iff, !orb_true_iff, !bool_decide_eq_true in Hc.
  destruct Hc as [[[_ [Hsize|Hsel]] _] _]; [|done].
  assert (selectedSeries = seriesStore) as ->.
  { apply set_subseteq_size_eq; [done|]. lia. }
  by apply Hall.
Qed.

(** X15: filtering the result again with the same selections changes
    nothing. *)
Theorem filterComics_idempotent (comics : list Comic)
    (selectedSeries selectedCreators selectedEvents : gset string)
    (monthIndex : Z) :
  filterComics
    (filterComics comics selectedSeries selectedCreators selectedEvents
       monthIndex)
    selectedSeries selectedCreators selectedEvents monthIndex
  = filterComics comics selectedSeries selectedCreators selectedEvents
      monthIndex.
Proof.
  unfold YearPage.filterComics.
  induction comics as [|c l IH]; [done|]. cbn [List.filter].
  match goal with
  | |- context [if ?b then _ else _] => destruct b eqn:Hb
  end; [|done].
  cbn [List.filter]. rewrite Hb. by rewrite IH.
Qed.

End FilterMore.

End PageMore.

(** * Properties of the controls *)

Module ScriptFacts.
Import Script YearPageFacts PageMore.

(** X16: [monthIndex] lies between -2 and 11; it is -1 exactly for "all", at
    least 0 exactly for the twelve month names, for which it is the
    position among them counted from 0, and -2 for everything else. *)
Theorem monthIndex_range (month : option string) :
  -2 <= monthIndex month <= 11 ∧
  (monthIndex month = -1 <-> month = Some "all") ∧
  (0 <= monthIndex month <->
   ∃ name, month = Some name ∧ name ∈ drop 1 months) ∧
  (∀ k name, months !! k = Some name ->
             monthIndex (Some name) = Z.of_nat k - 1).
Proof.
  split; [|split; [|split]].
  - destruct month as [m|]; [|done].
    unfold monthIndex, indexOf, months. simpl. repeat case_decide; lia.
  - destruct month as [m|]; [|done].
    unfold monthIndex, indexOf, months. simpl.
    repeat case_decide; subst; split; (done || lia || congruence).
  - destruct month as [m|].
    + unfold monthIndex, indexOf, months. simpl.
      repeat case_decide; subst; split; intros Hx; try lia;
        try (eexists; split; [done|];
             rewrite !elem_of_cons; tauto);
        destruct Hx as (name & Heq & Hin); injection Heq as <-;
        rewrite !elem_of_cons, elem_of_nil in Hin;
        intuition congruence.
    + split; [done|]. by intros (name & ? & _).
  - intros k name Hk.
    do 13 (destruct k as [|k]; [injection Hk as <-; reflexivity|]).
    done.
Qed.

(** X17: the month of the query selects its month: the numeral of a number
    from 1 to 12 gives that number less 1, a missing or empty value
    gives -1, and a month index of at least 0 comes only from such a
    numeral. *)
Theorem initialMonth_of_query (startMonth : option string) :
  (∀ n, 1 <= n <= 12 ->
        monthIndex (initialMonth (Some (JS.toString n))) = n - 1) ∧
  monthIndex (initialMonth None) = -1 ∧
  monthIndex (initialMonth (Some "")) = -1 ∧
  (0 <= monthIndex (initialMonth startMonth) ->
   ∃ n, 1 <= n <= 12 ∧ startMonth = Some (JS.toString n)).
Proof.
  split; [|split; [done|split; [done|]]].
  - intros n Hn.
    assert (n = 1 ∨ n = 2 ∨ n = 3 ∨ n = 4 ∨ n = 5 ∨ n = 6 ∨ n = 7 ∨ n = 8 ∨
            n = 9 ∨ n = 10 ∨ n = 11 ∨ n = 12) as Hcases by lia.
    repeat (destruct Hcases as [->|Hcases]; [reflexivity|]).
    by subst.
  - assert (¬ 0 <= monthIndex (months !! 0%nat)) as Hall
      by (intros Hm; vm_compute in Hm; by apply Hm).
    destruct startMonth as [s|]; [|done].
    unfold initialMonth. destruct (JS.truthyString s); [|done].
    unfold elementAt. simpl.
    repeat (case_bool_decide as Hs;
            [ intros Hm; subst s;
              first [ exfalso; vm_compute in Hm; by apply Hm
                    | by exists 1 | by exists 2 | by exists 3 | by exists 4
                    | by exists 5 | by exists 6 | by exists 7 | by exists 8
                    | by exists 9 | by exists 10 | by exists 11
                    | by exists 12 ]
            | clear Hs ]).
    intros Hm. exfalso. vm_compute in Hm. by apply Hm.
Qed.

Section Shown.
Context `{YearPage.ComicsLib} `{YearPage.Ranking}.
Variables creators events series : gset string.

Local Abbreviation resetFilters := (resetFilters creators events series).
Local Abbreviation filteredComics := (filteredComics creators events series).
Local Abbreviation sortedComics := (sortedComics creators events series).
Local Abbreviation shownComics := (shownComics creators events series).

Lemma filterComics_sizes (comics : list YearPage.Comic)
    (monthIndex : Z) :
  monthIndex < 0 ->
  YearPage.filterComics creators events series comics series creators events
    monthIndex = comics.
Proof.
  intros Hm. unfold YearPage.filterComics.
  rewrite !bool_decide_eq_true_2 by done.
  destruct (Z.ltb_spec monthIndex 0); [|lia]. simpl.
  induction comics as [|c l IH]; simpl; [done|]. by rewrite IH.
Qed.

(** X18: after [resetFilters], whatever the controls were, the filter keeps
    every record, the list is sorted with an empty search text, the sort
    key and the direction are as before, and resetting again changes
    nothing. *)
Theorem resetFilters_shows_all (comics : list YearPage.Comic) (st : Controls) :
  filteredComics comics (resetFilters st) = comics ∧
  sortedComics comics (resetFilters st)
    = YearPage.sortComics comics (sortBy st) "" ∧
  shownComics comics (resetFilters st)
    = YearPage.orderedComics (sortDescending st)
        (YearPage.sortComics comics (sortBy st) "") ∧
  resetFilters (resetFilters st) = resetFilters st.
Proof.
  assert (filteredComics comics (resetFilters st) = comics) as Hf.
  { unfold Script.filteredComics, Script.resetFilters. simpl.
    by apply filterComics_sizes. }
  split; [done|]. unfold Script.shownComics, Script.sortedComics.
  rewrite Hf. done.
Qed.

(** X19: every record the page shows is a record of the input, and when the
    ids of the input are pairwise distinct so are the ids of the records
    shown, whatever the controls are. *)
Theorem shownComics_distinct_ids (comics : list YearPage.Comic) (st : Controls) :
  NoDup (YearPage.id <$> comics) ->
  NoDup (YearPage.id <$> shownComics comics st) ∧
  (∀ c, c ∈ shownComics comics st -> c ∈ comics) ∧
  (length (shownComics comics st) <= length comics)%nat.
Proof.
  intros Hnd.
  assert (∃ l, shownComics comics st ≡ₚ l ∧ sublist l comics)
    as (l & Hperm & Hsub).
  { exists (List.filter
              (fun c => YearPage.threshold <=?
                          YearPage.getMatchRanking (YearPage.title c)
                            (searchText st))
              (filteredComics comics st)).
    split.
    - unfold Script.shownComics, YearPage.orderedComics, Script.sortedComics.
      destruct (sortDescending st); [|rewrite reverse_Permutation];
        apply sortComics_Permutation.
    - etrans; [apply filter_sublist|]. apply filter_sublist. }
  split; [|split].
  - rewrite Hperm. eapply sublist_NoDup; [exact Hnd|]. by apply fmap_sublist.
  - intros c Hc. rewrite Hperm in Hc. by eapply elem_of_sublist.
  - rewrite Hperm. by apply sublist_length.
Qed.

End Shown.

End ScriptFacts.

(** * Properties of [load] *)

Module LoadFacts.
Import Load.

(** X20: the timer guards the call and nothing else.  On the server,
    when the timer fires first or the call never settles, [load] returns
    status 500 with the time-out message of 9000 ms, whatever the service
    would have answered; the one way for [load] not to return there is a
    response that arrived in time and whose body read never settles.  In
    the browser the timer plays no part, and [load] does not return
    exactly when the call or the body read never settles. *)
Theorem load_timeout (parseInt : string -> option Z)
    (fetch : string -> option (Settled FetchResponse)) (year : string) :
  let url := "/year/" +:+ year +:+ ".json" in
  let timedOut :=
    Some (Failure 500 (Caught (TimedOut "Timed out in 9000ms."))) in
  load false parseInt fetch TimerFirst year = timedOut ∧
  (fetch url = None -> ∀ race, load false parseInt fetch race year = timedOut) ∧
  (∀ race, load false parseInt fetch race year = None <->
           race = CallFirst ∧
           ∃ res, fetch url = Some (Fulfilled res) ∧ body res = Unfinished) ∧
  (load false parseInt fetch CallFirst year ≠ timedOut ->
   load false parseInt fetch CallFirst year
   = load true parseInt fetch CallFirst year) ∧
  (∀ race, load true parseInt fetch race year
           = load true parseInt fetch CallFirst year) ∧
  (∀ race, load true parseInt fetch race year = None <->
           fetch url = None ∨
           ∃ res, fetch url = Some (Fulfilled res) ∧ body res = Unfinished).
Proof.
  intros url timedOut. subst timedOut. unfold load. fold url.
  split; [|split; [|split; [|split; [|split]]]].
  - by destruct (fetch url).
  - intros ->. by intros [].
  - intros race. unfold promiseTimeout.
    destruct (fetch url) as [[res|e]|], race; simpl;
      try (split; [done|]; by intros (? & ? & ? & ?)).
    destruct (body res) eqn:Hb; [destruct (ok res)|..];
      try (split; [done|]; intros (_ & res' & Heq & Hb');
           injection Heq as <-; congruence).
    split; [|done]. intros _. split; [done|]. by exists res.
  - by destruct (fetch url).
  - done.
  - intros _. destruct (fetch url) as [[res|e]|]; simpl.
    + destruct (body res) eqn:Hb; [destruct (ok res)|..];
        try (split; [done|]; intros [?|(res' & Heq & Hb')]; [done|];
             injection Heq as <-; congruence).
      split; [|done]. intros _. right. by exists res.
    + split; [done|]. by intros [?|(? & ? & _)].
    + split; [|done]. intros _. by left.
Qed.

(** X21: [load] reads the body before it looks at [ok]: it yields the
    props, with a maximal age of 86400, exactly for an OK response whose
    body parses; it reports the status of the response exactly for a
    response that is not OK and whose body parses; and a response whose
    body does not parse is reported as status 500, whatever its own
    status is. *)
Theorem load_status (browser : bool) (parseInt : string -> option Z)
    (fetch : string -> option (Settled FetchResponse)) (year : string)
    (res : FetchResponse) :
  let url := "/year/" +:+ year +:+ ".json" in
  fetch url = Some (Fulfilled res) ->
  let out := load browser parseInt fetch CallFirst year in
  (∀ response y maxage,
     out = Some (Props response y maxage) <->
     ok res = true ∧ body res = Parses response ∧ y = parseInt year ∧
     maxage = 86400) ∧
  (body res = NotJson -> out = Some (Failure 500 (Caught BodyNotJson))) ∧
  (∀ response, body res = Parses response -> ok res = false ->
     out = Some (Failure (status res)
                   (CouldNotLoad ("Could not load " +:+ url)))) ∧
  (∀ st message,
     out = Some (Failure st (CouldNotLoad message)) <->
     ok res = false ∧ (∃ response, body res = Parses response) ∧
     st = status res ∧ message = "Could not load " +:+ url).
Proof.
  intros url Hfetch out. subst out. unfold load. fold url. rewrite Hfetch.
  assert ((if browser then Some (Fulfilled res)
           else Some (promiseTimeout CallFirst DEFAULT_TIMEOUT
                        (Some (Fulfilled res))))
          = Some (Fulfilled res)) as -> by by destruct browser.
  destruct (body res) as [response| |]; [destruct (ok res)|..];
    (split; [|split; [|split]]); try done.
  - intros r y m. split.
    + intros Heq. injection Heq as -> -> ->. done.
    + intros (_ & Heq & -> & ->). by injection Heq as ->.
  - intros st m. split; [done|]. by intros (? & _).
  - intros r y m. split; [done|]. by intros (? & _).
  - intros st m. split.
    + intros Heq. injection Heq as <- <-. repeat split. by exists response.
    + by intros (_ & _ & -> & ->).
  - intros r y m. split; [done|]. by intros (_ & ? & _).
  - intros st m. split; [done|]. by intros (_ & (? & ?) & _).
  - intros r y m. split; [done|]. by intros (_ & ? & _).
  - intros st m. split; [done|]. by intros (_ & (? & ?) & _).
Qed.

End LoadFacts.

(** * The further properties at concrete inputs *)

Module MoreRuns.
Import Api Fixture ApiFacts ApiMore.

Lemma totalKey_distinct_witness :
  1999 ≠ 2000 ∧ totalKey 1999 ≠ totalKey 2000.
Proof. split; [lia|]. apply (totalKey_distinct 1999 2000). lia. Defined.

Lemma getTotalComics_then_cached_witness :
  let d := {| total := 1234;
              results := [ {| raw_id := 7; raw_title := "Avengers" |} ] |} in
  (JS.truthyNumber (kv (redis okWorld) !! totalKey 1999) = false ∧
   upstream okWorld (length (sent okWorld))
     (totalRequest publicKey privateKey digest
        (clock okWorld (ticks okWorld)) 1999)
     = Some {| body := Some okPage |} ∧
   code okPage = 200 ∧ data okPage = Some d ∧ total d ≠ 0) ∧
  let first := getTotalComics publicKey privateKey digest false 1999 okWorld in
  first.1 = Returned (total d) ∧
  getTotalComics publicKey privateKey digest false 1999 first.2
    = (Returned (total d), first.2).
Proof.
  intros d. split; [repeat split; (reflexivity || done)|].
  apply (getTotalComics_then_cached publicKey privateKey digest 1999 okWorld
           okPage d); (reflexivity || done).
Defined.

Lemma getTotalComics_rejection_writes_nothing_witness :
  let w := worldOf emptyStore None in
  (getTotalComics publicKey privateKey digest false 1999 w).1
    = Thrown NetworkError ∧
  let run := getTotalComics publicKey privateKey digest false 1999 w in
  redis run.2 = redis w ∧
  written (redis run.2) = written (redis w) ∧
  sent run.2 =
    sent w ++
    [totalRequest publicKey privateKey digest (clock w (ticks w)) 1999] ∧
  ticks run.2 = S (ticks w).
Proof.
  intros w. split; [reflexivity|].
  apply (getTotalComics_rejection_writes_nothing publicKey privateKey digest
           false 1999 w NetworkError).
  reflexivity.
Defined.

Lemma getTotalComics_frame_witness :
  2000 ≠ 1999 ∧
  let run := getTotalComics publicKey privateKey digest false 1999 okWorld in
  kv (redis run.2) !! totalKey 2000 = kv (redis okWorld) !! totalKey 2000 ∧
  pages (redis run.2) = pages (redis okWorld) ∧
  sampleByYearRange (redis run.2) = sampleByYearRange (redis okWorld) ∧
  sampleAny (redis run.2) = sampleAny (redis okWorld).
Proof.
  split; [lia|].
  apply (getTotalComics_frame publicKey privateKey digest false 1999 2000
           okWorld).
  lia.
Defined.

Lemma pageRequest_distinct_witness :
  (1999 ≠ 1999 ∨ 3 ≠ 4) ∧
  pageRequest publicKey privateKey digest 1600000000000 1999 3
  ≠ pageRequest publicKey privateKey digest 1600000000000 1999 4.
Proof.
  split; [right; lia|].
  apply (pageRequest_distinct publicKey privateKey digest
           1600000000000 1600000000000 1999 1999 3 4).
  right. lia.
Defined.

End MoreRuns.

Module MorePageRuns.
Import YearPage Model YearPageFacts PageMore ModelFacts.

Lemma compareUnlimitedDates_consistent : Consistent compareUnlimitedDates.
Proof.
  split.
  - intros a b. simpl.
    rewrite (compareDate_antisym (unlimitedDate b) (unlimitedDate a)),
      signOf_opp.
    lia.
  - intros a b c. simpl. rewrite !signOf_le. apply compareDate_trans.
Qed.

Lemma sortComics_custom_key_order_witness :
  (Consistent compareTitles ∧ Consistent compareDates ∧
   Consistent compareUnlimitedDates) ∧
  StronglySorted (before compareTitles)
    (sortComics [avengers; astonishing; amazing] Title "a") ∧
  StronglySorted (before compareDates)
    (sortComics [avengers; astonishing; amazing] PublishDate "a") ∧
  StronglySorted (before compareUnlimitedDates)
    (sortComics [avengers; astonishing; amazing] UnlimitedDate "a").
Proof.
  split.
  - split; [apply compareTitles_consistent|].
    split; [apply compareDates_consistent|].
    apply compareUnlimitedDates_consistent.
  - apply (sortComics_custom_key_order [avengers; astonishing; amazing] "a").
    + apply compareTitles_consistent.
    + apply compareDates_consistent.
    + apply compareUnlimitedDates_consistent.
Defined.

Lemma sortComics_custom_key_stable_witness :
  let comics := [avengers; reprint; astonishing; amazing] in
  let kept := List.filter
                (fun c => threshold <=? getMatchRanking (title c) "") comics in
  (Consistent compareTitles ∧ Consistent compareDates ∧
   Consistent compareUnlimitedDates) ∧
  List.filter (fun c => compareTitles amazing c =? 0)
    (sortComics comics Title "")
  = List.filter (fun c => compareTitles amazing c =? 0) kept ∧
  List.filter (fun c => compareDates amazing c =? 0)
    (sortComics comics PublishDate "")
  = List.filter (fun c => compareDates amazing c =? 0) kept ∧
  List.filter (fun c => compareUnlimitedDates amazing c =? 0)
    (sortComics comics UnlimitedDate "")
  = List.filter (fun c => compareUnlimitedDates amazing c =? 0) kept.
Proof.
  intros comics kept. split.
  - split; [apply compareTitles_consistent|].
    split; [apply compareDates_consistent|].
    apply compareUnlimitedDates_consistent.
  - apply (sortComics_custom_key_stable comics "" amazing).
    + apply compareTitles_consistent.
    + apply compareDates_consistent.
    + apply compareUnlimitedDates_consistent.
Defined.

Example duplicate_titles_keep_input_order :
  id <$> sortComics [avengers; reprint; astonishing; amazing] Title ""
  = ["4"; "1"; "2"; "3"] ∧
  id <$> sortComics [avengers; amazing; astonishing; reprint] Title ""
  = ["1"; "4"; "2"; "3"].
Proof. split; reflexivity. Qed.

Lemma sortComics_best_match_stable_witness :
  let comics := [avengers; reprint; astonishing; amazing] in
  let tie := if JS.truthyString "" then compareTitles else compareDates in
  let rk := fun c => getMatchRanking (title c) "" in
  (BestMatch ≠ PublishDate ∧ BestMatch ≠ Title ∧ BestMatch ≠ UnlimitedDate ∧
   Consistent tie) ∧
  List.filter (fun c => (rk amazing =? rk c) && (tie amazing c =? 0))
    (sortComics comics BestMatch "")
  = List.filter (fun c => (rk amazing =? rk c) && (tie amazing c =? 0))
      (List.filter (fun c => threshold <=? getMatchRanking (title c) "")
         comics).
Proof.
  intros comics tie rk. split.
  - split; [done|]. split; [done|]. split; [done|].
    apply compareDates_consistent.
  - apply (sortComics_best_match_stable comics BestMatch "" amazing);
      try done.
    apply compareDates_consistent.
Defined.

Lemma filterComics_series_selected_witness :
  let seriesStore : gset string := {[ "ASM"; "AVG" ]} in
  let comics := [avengers; amazing; astonishing] in
  let kept :=
    filterComics {[ "Lee"; "Ditko"; "Kirby" ]} {[ "Secret Wars" ]} seriesStore
      comics {[ "ASM" ]} {[ "Lee"; "Ditko"; "Kirby" ]} {[ "Secret Wars" ]}
      (-1) in
  (({[ "ASM" ]} : gset string) ⊆ seriesStore ∧
   (∀ x, x ∈ comics -> seriesName x ∈ seriesStore) ∧
   amazing ∈ kept) ∧
  seriesName amazing ∈ ({[ "ASM" ]} : gset string).
Proof.
  intros seriesStore comics kept.
  assert (({[ "ASM" ]} : gset string) ⊆ seriesStore) as Hsub
    by (apply (bool_decide_unpack _); reflexivity).
  assert (∀ x, x ∈ comics -> seriesName x ∈ seriesStore) as Hall.
  { intros x Hx. subst comics.
    rewrite !elem_of_cons, elem_of_nil in Hx.
    destruct Hx as [->|[->|[->|[]]]];
      apply (bool_decide_unpack _); reflexivity. }
  assert (amazing ∈ kept) as Hin.
  { subst kept comics seriesStore. vm_compute. left. }
  split; [done|].
  exact (filterComics_series_selected {[ "Lee"; "Ditko"; "Kirby" ]}
           {[ "Secret Wars" ]} seriesStore comics {[ "ASM" ]}
           {[ "Lee"; "Ditko"; "Kirby" ]} {[ "Secret Wars" ]} (-1) amazing
           Hsub Hall Hin).
Defined.

End MorePageRuns.

Module MoreScriptRuns.
Import Model Script Load ScriptFixture ScriptFacts LoadFacts.

Lemma shownComics_distinct_ids_witness :
  let creators : gset string := {[ "Lee"; "Ditko"; "Kirby" ]} in
  let events : gset string := {[ "Secret Wars" ]} in
  let series : gset string := {[ "ASM"; "AVG" ]} in
  let comics := [Model.avengers; Model.amazing; Model.astonishing] in
  NoDup (YearPage.id <$> comics) ∧
  NoDup (YearPage.id <$> shownComics creators events series comics
                           marchControls) ∧
  (∀ c, c ∈ shownComics creators events series comics marchControls ->
        c ∈ comics) ∧
  (length (shownComics creators events series comics marchControls)
   <= length comics)%nat.
Proof.
  intros creators events series comics.
  assert (NoDup (YearPage.id <$> comics)) as Hnd
    by (apply (bool_decide_unpack _); reflexivity).
  split; [done|].
  exact (shownComics_distinct_ids creators events series comics marchControls
           Hnd).
Defined.

Example marchControls_show_amazing :
  YearPage.id <$>
    shownComics {[ "Lee"; "Ditko"; "Kirby" ]} {[ "Secret Wars" ]}
      {[ "ASM"; "AVG" ]} [Model.avengers; Model.amazing; Model.astonishing]
      marchControls
  = ["1"].
Proof. reflexivity. Qed.

Lemma load_status_witness :
  fetchYear ("/year/" +:+ "1999" +:+ ".json") = Some (Fulfilled notFound) ∧
  let url := "/year/" +:+ "1999" +:+ ".json" in
  let out := load true parseYear fetchYear CallFirst "1999" in
  (∀ response y maxage,
     out = Some (Props response y maxage) <->
     ok notFound = true ∧ body notFound = Parses response ∧
     y = parseYear "1999" ∧ maxage = 86400) ∧
  (body notFound = NotJson -> out = Some (Failure 500 (Caught BodyNotJson))) ∧
  (∀ response, body notFound = Parses response -> ok notFound = false ->
     out = Some (Failure (status notFound)
                   (CouldNotLoad ("Could not load " +:+ url)))) ∧
  (∀ st message,
     out = Some (Failure st (CouldNotLoad message)) <->
     ok notFound = false ∧ (∃ response, body notFound = Parses response) ∧
     st = status notFound ∧ message = "Could not load " +:+ url).
Proof.
  split; [reflexivity|].
  apply (load_status true parseYear fetchYear "1999" notFound).
  reflexivity.
Defined.

Example load_not_found :
  load false parseYear fetchYear CallFirst "1999"
    = Some (Failure 404 (CouldNotLoad "Could not load /year/1999.json")) ∧
  load false parseYear fetchYear TimerFirst "1999"
    = Some (Failure 500 (Caught (TimedOut "Timed out in 9000ms."))) ∧
  load false parseYear fetchYear CallFirst "2000"
    = Some (Failure 500 (Caught (TimedOut "Timed out in 9000ms."))) ∧
  load true parseYear fetchYear TimerFirst "2000" = None.
Proof. vm_compute. repeat split. Qed.

End MoreScriptRuns.
